(** * GoogleDriveReader: a shallow embedding of
    [llama_index/readers/google/drive/base.py] and the properties of its
    credential resolution, folder enumeration, file download and document
    assembly.

    The Python methods are written as functions in a small state-and-exception
    monad over a [World] that holds everything the methods can change or
    observe: the list objects that callers pass by reference, the local file
    system, the logger and the sequence of remote requests issued.  The remote
    provider, the authentication library and the directory reader are the
    collaborators of the class; they are parameters of the development. *)

From Stdlib Require Import Ascii String.
From stdpp Require Import base option list gmap strings pretty.

Set Warnings "-register-all".

(** ** Python values, exceptions and outcomes *)

Module Py.

(** The values whose truthiness the reader tests without knowing their
    type: [self._is_cloud] is declared a [bool] and assigned a tuple in the
    constructor. *)
Inductive pyval :=
| PyNone
| PyBool (b : bool)
| PyTuple (items : list pyval).

(** [bool(v)]: [None] and [False] are falsy, a tuple is falsy only when it
    is empty. *)
Definition truthy (v : pyval) : bool :=
  match v with
  | PyNone => false
  | PyBool b => b
  | PyTuple [] => false
  | PyTuple (_ :: _) => true
  end.

(** [bool(s)] for an [Optional[str]]: [None] and the empty string are
    falsy. *)
Definition truthy_str (s : option string) : bool :=
  match s with
  | None | Some "" => false
  | Some _ => true
  end.

(** [bool(l)] for an [Optional[list]]. *)
Definition truthy_list {A} (l : option (list A)) : bool :=
  match l with
  | None | Some [] => false
  | Some (_ :: _) => true
  end.

Inductive exn :=
| KeyError (key : string)
| IndexError
| TypeError (msg : string)
| ValueError (msg : string)
| HttpError (msg : string)
| RefreshError (msg : string)
| OSError (msg : string).

(** What a collaborator answers: a value or an exception. *)
Inductive result (A : Type) :=
| Ok (a : A)
| Err (e : exn).
Global Arguments Ok {A} a.
Global Arguments Err {A} e.

(** What a call of the embedded code does: it returns, it raises, or the
    model ran out of fuel before either happened (the loop or the recursion
    was still running). *)
Inductive outcome (A : Type) :=
| Returned (a : A)
| Raised (e : exn)
| OutOfFuel.
Global Arguments Returned {A} a.
Global Arguments Raised {A} e.
Global Arguments OutOfFuel {A}.

End Py.
Import Py.

(** ** The world *)

(** A file as the listing and the metadata call describe it.  The provider
    answers with JSON objects; a key that is absent is [None] here and raises
    [KeyError] when the code subscripts it. *)
Record Item := {
  item_id : option string;
  item_name : option string;
  item_mimeType : option string;
  item_owners : option (list (option string));  (* displayName of each owner *)
  item_driveId : option string;
  item_createdTime : option string;
  item_modifiedTime : option string;
}.

(** [service.files().list(...)]: the parameters the API takes.  [pageToken]
    selects the page that is served; a request without it is served the first
    page. *)
Record ListRequest := {
  q : string;
  driveId : option string;
  corpora : option string;
  includeItemsFromAllDrives : bool;
  supportsAllDrives : bool;
  fields : string;
  pageToken : option string;
}.

Record ListResponse := {
  resp_files : option (list Item);
  nextPageToken : option string;
}.

(** [service.files().get(fileId=..., supportsAllDrives=True, fields=...)];
    [fields] is absent when the call does not pass it. *)
Record GetRequest := {
  get_fileId : option string;
  get_fields : option string;
}.

Inductive MediaRequest :=
| ExportMedia (fileId : string) (mimeType : string)
| GetMedia (fileId : string).

(** Every request that leaves the process, in the order it was issued. *)
Inductive Event :=
| EvFilesList (req : ListRequest)
| EvFilesGet (req : GetRequest)
| EvMedia (req : MediaRequest)
| EvTokenRefresh
| EvConsentFlow.

Inductive LogLevel := WARNING | ERROR.

Record LogRecord := {
  level : LogLevel;
  message : string;
  exc_info : option exn;
}.

Record World := {
  heap : gmap nat (list string);          (* list objects, by address *)
  files : gmap string (list Byte.byte);   (* regular files, by path *)
  dirs : gset string;                     (* directories *)
  tmp_seq : nat;                          (* names handed out by mkdtemp *)
  log : list LogRecord;
  trace : list Event;
}.

Definition set_heap (h : gmap nat (list string)) (w : World) : World :=
  {| heap := h; files := files w; dirs := dirs w; tmp_seq := tmp_seq w;
     log := log w; trace := trace w |}.
Definition set_fs (f : gmap string (list Byte.byte)) (d : gset string) (w : World) : World :=
  {| heap := heap w; files := f; dirs := d; tmp_seq := tmp_seq w;
     log := log w; trace := trace w |}.
Definition set_tmp_seq (n : nat) (w : World) : World :=
  {| heap := heap w; files := files w; dirs := dirs w; tmp_seq := n;
     log := log w; trace := trace w |}.
Definition add_log (r : LogRecord) (w : World) : World :=
  {| heap := heap w; files := files w; dirs := dirs w; tmp_seq := tmp_seq w;
     log := log w ++ [r]; trace := trace w |}.
Definition add_event (e : Event) (w : World) : World :=
  {| heap := heap w; files := files w; dirs := dirs w; tmp_seq := tmp_seq w;
     log := log w; trace := trace w ++ [e] |}.

(** ** The monad of the embedded code *)

Definition M (A : Type) : Type := World -> outcome A * World.

Definition ret {A} (a : A) : M A := fun w => (Returned a, w).
Definition raise {A} (e : exn) : M A := fun w => (Raised e, w).
Definition out_of_fuel {A} : M A := fun w => (OutOfFuel, w).

Definition bind {A B} (m : M A) (k : A -> M B) : M B :=
  fun w =>
    match m w with
    | (Returned a, w') => k a w'
    | (Raised e, w') => (Raised e, w')
    | (OutOfFuel, w') => (OutOfFuel, w')
    end.

Notation "x <- m ;; k" := (bind m (fun x => k))
  (at level 100, m at next level, right associativity).
Notation "m ;;; k" := (bind m (fun _ => k))
  (at level 100, right associativity).

(** A collaborator's answer enters the code as a return or a raise. *)
Definition lift {A} (r : result A) : M A :=
  match r with
  | Ok a => ret a
  | Err e => raise e
  end.

Definition emit (e : Event) : M unit := fun w => (Returned tt, add_event e w).

(** [d[k]] on a JSON object. *)
Definition subscript {A} (key : string) (field : option A) : M A :=
  match field with
  | Some a => ret a
  | None => raise (KeyError key)
  end.

(** [try: body  except Exception as e: logger.error(msg + str(e),
    exc_info=True)]: the handler has no [return], so the method yields [None]
    after logging. *)
Definition try_log {A} (msg : string) (body : M (option A)) : M (option A) :=
  fun w =>
    match body w with
    | (Returned a, w') => (Returned a, w')
    | (Raised e, w') =>
        (Returned None,
         add_log {| level := ERROR; message := msg; exc_info := Some e |} w')
    | (OutOfFuel, w') => (OutOfFuel, w')
    end.

(** [for x in xs: acc = step(acc, x)] *)
Fixpoint for_each {A B} (step : B -> A -> M B) (xs : list A) (acc : B) : M B :=
  match xs with
  | [] => ret acc
  | x :: xs' => acc' <- step acc x ;; for_each step xs' acc'
  end.

(** ** The local file system *)

Module Fs.

Definition slash : ascii := "/"%char.

Fixpoint drop_slashes (l : list ascii) : list ascii :=
  match l with
  | c :: l' => if Ascii.eqb c slash then drop_slashes l' else l
  | [] => []
  end.

Fixpoint drop_to_slash (l : list ascii) : list ascii :=
  match l with
  | c :: l' => if Ascii.eqb c slash then l else drop_to_slash l'
  | [] => []
  end.

(** [posixpath.dirname]: everything up to the last slash, with the trailing
    slashes removed unless nothing else is left. *)
Definition dirname (p : string) : string :=
  let head_rev := drop_to_slash (rev (list_ascii_of_string p)) in
  let stripped := drop_slashes head_rev in
  string_of_list_ascii
    (rev (match stripped with [] => head_rev | _ => stripped end)).

Definition starts_with_slash (p : string) : bool :=
  match p with
  | String c _ => Ascii.eqb c slash
  | EmptyString => false
  end.

Definition ends_with_slash (p : string) : bool :=
  match rev (list_ascii_of_string p) with
  | c :: _ => Ascii.eqb c slash
  | [] => false
  end.

(** [os.path.join(a, b)] for two components. *)
Definition join (a b : string) : string :=
  if starts_with_slash b then b
  else if (String.eqb a "" || ends_with_slash a)%bool then a +:+ b
  else a +:+ "/" +:+ b.

Definition isfile (p : string) : M bool :=
  fun w => (Returned (bool_decide (is_Some (files w !! p))), w).

(** [open(p).read()] *)
Definition read (p : string) : M (list Byte.byte) :=
  fun w =>
    match files w !! p with
    | Some data => (Returned data, w)
    | None => (Raised (OSError "No such file or directory"), w)
    end.

(** The directory a new file is created in has to exist; the working
    directory (the empty dirname) and the root always do. *)
Definition parent_exists (p : string) (w : World) : bool :=
  let d := dirname p in
  (String.eqb d "" || String.eqb d "/" || bool_decide (d ∈ dirs w))%bool.

(** [with open(p, "w") as f: f.write(data)].  [open] fails on a directory
    and in a directory that does not exist, and changes nothing then.  The
    write that follows a successful [open] is taken to complete: the disk of
    the model does not fill up, so a file is never left half written. *)
Definition write (p : string) (data : list Byte.byte) : M unit :=
  fun w =>
    if bool_decide (p ∈ dirs w) then (Raised (OSError "Is a directory"), w)
    else if parent_exists p w
    then (Returned tt, set_fs (<[p := data]> (files w)) (dirs w) w)
    else (Raised (OSError "No such file or directory"), w).

Definition is_prefix (d p : string) : bool :=
  String.prefix d p.

(** A path lies under the directory [d] when it extends [d ++ "/"]. *)
Definition under (d p : string) : bool := is_prefix (d +:+ "/") p.

End Fs.


(** ** Collaborators *)

(** The client configuration, the authorized-user info and the service-account
    key are JSON objects that the reader only hands on; they are kept as
    text. *)
Definition JsonDict : Type := string.

(** [google.oauth2.credentials.Credentials], as far as the reader looks at
    it. *)
Record Credentials := {
  token : option string;
  refresh_token : option string;
  expired : bool;
  cred_scopes : list string;
}.

(** [Credentials.valid]: a token is present and it has not expired. *)
Definition valid (c : Credentials) : bool :=
  match token c with
  | Some _ => negb (expired c)
  | None => false
  end.

(** The authentication library and [json]. *)
Record AuthLib := {
  from_authorized_user_info : JsonDict -> list string -> result Credentials;
  from_service_account_info : JsonDict -> list string -> result Credentials;
  (* creds.refresh(Request()): the credential after the refresh *)
  refresh : Credentials -> result Credentials;
  (* InstalledAppFlow.from_client_config(config, scopes).run_local_server(port=0) *)
  run_local_server : option JsonDict -> list string -> result Credentials;
  to_json : Credentials -> string;
  json_load : list Byte.byte -> result JsonDict;
}.

(** The remote provider behind [build("drive", "v3", credentials=...)].  Each
    answer depends on the request alone. *)
Record DriveService := {
  files_list : ListRequest -> result ListResponse;
  files_get : GetRequest -> result Item;
  (* the chunks MediaIoBaseDownload.next_chunk delivers until it reports done *)
  media_chunks : MediaRequest -> result (list (list Byte.byte));
}.

(** ** The reader *)

Record MimeConversion := {
  mimetype : string;
  extension : string;
}.

Record GoogleDriveReader := {
  client_config : option JsonDict;
  authorized_user_info : option JsonDict;
  service_account_key : option JsonDict;
  token_path : string;
  _is_cloud : pyval;
  _creds : option Credentials;
  _mimetypes : gmap string MimeConversion;
}.

Definition set_creds (c : option Credentials) (self : GoogleDriveReader) : GoogleDriveReader :=
  {| client_config := client_config self;
     authorized_user_info := authorized_user_info self;
     service_account_key := service_account_key self;
     token_path := token_path self;
     _is_cloud := _is_cloud self;
     _creds := c;
     _mimetypes := _mimetypes self |}.

Definition SCOPES : list string :=
  ["https://www.googleapis.com/auth/drive.readonly"].

Definition folder_mime_type : string := "application/vnd.google-apps.folder".

(** The table the constructor installs in [self._mimetypes]. *)
Definition mimetypes_table : gmap string MimeConversion :=
  <["application/vnd.google-apps.document" :=
      {| mimetype := "application/vnd.openxmlformats-officedocument.wordprocessingml.document";
         extension := ".docx" |}]>
  (<["application/vnd.google-apps.spreadsheet" :=
      {| mimetype := "application/vnd.openxmlformats-officedocument.spreadsheetml.sheet";
         extension := ".xlsx" |}]>
  (<["application/vnd.google-apps.presentation" :=
      {| mimetype := "application/vnd.openxmlformats-officedocument.presentationml.presentation";
         extension := ".pptx" |}]> ∅)).

Section Authentication.

Context (auth : AuthLib).

(** [if value is None and os.path.isfile(path): value = json.load(open(path))] *)
Definition load_if_missing (value : option JsonDict) (path : string) : M (option JsonDict) :=
  match value with
  | Some _ => ret value
  | None =>
      present <- Fs.isfile path ;;
      if present : bool then
        data <- Fs.read path ;;
        parsed <- lift (json_load auth data) ;;
        ret (Some parsed)
      else ret None
  end.

(** A private attribute after the constructor of the pydantic base class
    has run: the default its declaration gives, when it gives one, and else
    what had been assigned to it.  [PrivateAttr(default=False)] is
    [Some (PyBool false)], [PrivateAttr()] is [None]. *)
Definition init_private {A} (declared : option A) (assigned : A) : A :=
  default assigned declared.

(** [super().__init__(...)] (lines 114-121).  The base class is not part of
    this source file.  It stores the fields it is given and initialises the
    private attributes from their declarations (lines 60-62): [_is_cloud]
    declares the default [False], so the value assigned at line 78 is
    replaced; [_creds] and [_mimetypes] declare none and keep what lines 77
    and 81-96 assigned. *)
Definition super_init
    (client_config' authorized_user_info' service_account_key' : option JsonDict)
    (token_path' : string) (is_cloud_assigned : pyval)
    (creds_assigned : option Credentials)
    (mimetypes_assigned : gmap string MimeConversion) : GoogleDriveReader :=
  {| client_config := client_config';
     authorized_user_info := authorized_user_info';
     service_account_key := service_account_key';
     token_path := token_path';
     _is_cloud := init_private (Some (PyBool false)) is_cloud_assigned;
     _creds := init_private None creds_assigned;
     _mimetypes := init_private None mimetypes_assigned |}.

(** [GoogleDriveReader.__init__].  Line 78 assigns the one-element tuple
    [(is_cloud,)] to the private attribute; the base-class constructor runs
    last. *)
Definition __init__ (is_cloud : pyval)
    (credentials_path token_path_arg service_account_key_path : string)
    (client_config_arg authorized_user_info_arg service_account_key_arg : option JsonDict)
    : M GoogleDriveReader :=
  let creds_assigned := None in
  let is_cloud_assigned := PyTuple [is_cloud] in
  let mimetypes_assigned := mimetypes_table in
  client_config' <- load_if_missing client_config_arg credentials_path ;;
  authorized_user_info' <- load_if_missing authorized_user_info_arg token_path_arg ;;
  service_account_key' <- load_if_missing service_account_key_arg service_account_key_path ;;
  match client_config', service_account_key' with
  | None, None =>
      raise (ValueError "Must specify `client_config` or `service_account_key`.")
  | _, _ =>
      ret (super_init client_config' authorized_user_info' service_account_key'
             token_path_arg is_cloud_assigned creds_assigned mimetypes_assigned)
  end.

(** The interactive consent flow of the [else] branch. *)
Definition consent_flow (self : GoogleDriveReader) : M Credentials :=
  emit EvConsentFlow ;;;
  lift (run_local_server auth (client_config self) SCOPES).

(** Lines 150-159, the body of [if not creds or not creds.valid:]: refresh
    or log in, then save the credential when [not self._is_cloud] holds. *)
Definition renew_and_save (self : GoogleDriveReader) (creds : option Credentials)
    : M Credentials :=
  creds' <-
    match creds with
    | Some c =>
        if (expired c && truthy_str (refresh_token c))%bool
        then emit EvTokenRefresh ;;; lift (refresh auth c)
        else consent_flow self
    | None => consent_flow self
    end ;;
  (if negb (truthy (_is_cloud self))
   then Fs.write (token_path self) (list_byte_of_string (to_json auth creds'))
   else ret tt) ;;;
  ret creds'.

(** [_get_credentials] (lines 137-161).  With saved user info, [creds] is
    set and the test [not creds or not creds.valid] is [not creds.valid];
    with a service-account key only, the method returns at line 144; with
    neither, [creds] is [None] and the test holds. *)
Definition _get_credentials (self : GoogleDriveReader) : M Credentials :=
  match authorized_user_info self with
  | Some info =>
      creds <- lift (from_authorized_user_info auth info SCOPES) ;;
      if negb (valid creds) then renew_and_save self (Some creds) else ret creds
  | None =>
      match service_account_key self with
      | Some key => lift (from_service_account_info auth key SCOPES)
      | None => renew_and_save self None
      end
  end.

End Authentication.

(** ** List objects passed by reference *)

(** [mime_types] is a Python list: the caller and every recursive call hold
    the same object.  A list object is an address into [heap]. *)
Definition deref (l : nat) : M (list string) :=
  fun w => (Returned (default [] (heap w !! l)), w).

(** [l.append(x)] *)
Definition list_append (l : nat) (x : string) : M unit :=
  fun w =>
    (Returned tt, set_heap (<[l := default [] (heap w !! l) ++ [x]]> (heap w)) w).

(** ** Enumeration *)

(** The 6-tuple [(id, author, name, mimeType, createdTime, modifiedTime)]. *)
Record FileMeta := {
  fm_id : string;
  fm_author : string;
  fm_name : string;
  fm_mimeType : string;
  fm_createdTime : string;
  fm_modifiedTime : string;
}.

(** [f"mimeType='{mime_type}'"] *)
Definition mime_clause (mime_type : string) : string :=
  "mimeType='" +:+ mime_type +:+ "'".

(** [query += f" and ({mime_query})"] with
    [mime_query = " or ".join(clauses)] *)
Definition and_mime_query (query : string) (mime_list : list string) : string :=
  query +:+ " and (" +:+ String.concat " or " (map mime_clause mime_list) +:+ ")".

(** Lines 192-198: the MIME filter.  The folder type is appended to the
    caller's list object itself. *)
Definition add_mime_filter (mime_types : option nat) (query : string) : M string :=
  match mime_types with
  | None => ret query
  | Some l =>
      current <- deref l ;;
      match current with
      | [] => ret query
      | _ :: _ =>
          (if bool_decide (folder_mime_type ∈ current) then ret tt
           else list_append l folder_mime_type) ;;;
          mime_list <- deref l ;;
          ret (and_mime_query query mime_list)
      end
  end.

(** Lines 201-205: the free-form query string. *)
Definition add_query_string (query_string : option string) (query : string) : string :=
  match query_string with
  | Some qs =>
      if truthy_str query_string
      then query +:+ " and ((mimeType='" +:+ folder_mime_type +:+ "') or (" +:+ qs +:+ "))"
      else query
  | None => query
  end.

(** Lines 210-233: the request of one turn of the pagination loop.  Neither
    branch passes [pageToken]. *)
Definition list_request (drive_id : option string) (query : string) : ListRequest :=
  if truthy_str drive_id then
    {| q := query; driveId := drive_id; corpora := Some "drive";
       includeItemsFromAllDrives := true; supportsAllDrives := true;
       fields := "*"; pageToken := None |}
  else
    {| q := query; driveId := None; corpora := None;
       includeItemsFromAllDrives := true; supportsAllDrives := true;
       fields := "*"; pageToken := None |}.

(** [item["owners"][0]["displayName"] if not is_shared_drive else
    "Shared Drive"] *)
Definition author_of (item : Item) : M string :=
  match item_driveId item with
  | Some _ => ret "Shared Drive"
  | None =>
      owners <- subscript "owners" (item_owners item) ;;
      match owners with
      | first :: _ => subscript "displayName" first
      | [] => raise IndexError
      end
  end.

Definition file_meta_of (item : Item) : M FileMeta :=
  author <- author_of item ;;
  id <- subscript "id" (item_id item) ;;
  name <- subscript "name" (item_name item) ;;
  mime <- subscript "mimeType" (item_mimeType item) ;;
  created <- subscript "createdTime" (item_createdTime item) ;;
  modified <- subscript "modifiedTime" (item_modifiedTime item) ;;
  ret {| fm_id := id; fm_author := author; fm_name := name; fm_mimeType := mime;
         fm_createdTime := created; fm_modifiedTime := modified |}.

(** [acc.extend(r)]: extending with [None] raises. *)
Definition extend {A} (acc : list A) (r : option (list A)) : M (list A) :=
  match r with
  | Some l => ret (acc ++ l)
  | None => raise (TypeError "'NoneType' object is not iterable")
  end.

(** [for x in r]: iterating [None] raises. *)
Definition iterate {A} (r : option (list A)) : M (list A) :=
  match r with
  | Some l => ret l
  | None => raise (TypeError "'NoneType' object is not iterable")
  end.

Section Enumeration.

Context (build : option Credentials -> DriveService).

(** Lines 207-237: [while True] over the pages.  [fuel] bounds the number of
    turns the model follows. *)
Fixpoint list_pages (fuel : nat) (service : DriveService) (req : ListRequest)
    (items : list Item) : M (list Item) :=
  match fuel with
  | 0 => out_of_fuel
  | S fuel' =>
      emit (EvFilesList req) ;;;
      results <- lift (files_list service req) ;;
      let items := items ++ default [] (resp_files results) in
      match nextPageToken results with
      | None => ret items
      | Some _ => list_pages fuel' service req items
      end
  end.

Definition get_error_msg : string :=
  "An error occurred while getting fileids metadata: ".

(** Lines 239-276: one turn of the loop over the listed items.  [recur] is
    the method itself, called for a subfolder with the same list object and
    query string. *)
Definition visit_item
    (recur : option string -> option string -> option string -> option nat ->
             option string -> M (option (list FileMeta)))
    (drive_id : option string) (mime_types : option nat)
    (query_string : option string) (fileids_meta : list FileMeta) (item : Item)
    : M (list FileMeta) :=
  mime <- subscript "mimeType" (item_mimeType item) ;;
  if String.eqb mime folder_mime_type then
    id <- subscript "id" (item_id item) ;;
    sub <- recur (if truthy_str drive_id then drive_id else None)
             (Some id) None mime_types query_string ;;
    extend fileids_meta sub
  else
    meta <- file_meta_of item ;;
    ret (fileids_meta ++ [meta]).

(** The [try] block of [_get_fileids_meta] (lines 185-303); [page_fuel]
    bounds the turns of the pagination loop. *)
Definition get_fileids_meta_body
    (recur : option string -> option string -> option string -> option nat ->
             option string -> M (option (list FileMeta)))
    (page_fuel : nat) (self : GoogleDriveReader)
    (drive_id folder_id file_id : option string) (mime_types : option nat)
    (query_string : option string) : M (option (list FileMeta)) :=
  let service := build (_creds self) in
  if truthy_str folder_id then
    query <- add_mime_filter mime_types
               ("('" +:+ default "" folder_id +:+ "' in parents)") ;;
    let query := add_query_string query_string query in
    items <- list_pages page_fuel service (list_request drive_id query) [] ;;
    fileids_meta <-
      for_each (visit_item recur drive_id mime_types query_string) items [] ;;
    ret (Some fileids_meta)
  else
    let req := {| get_fileId := file_id; get_fields := Some "*" |} in
    emit (EvFilesGet req) ;;;
    file <- lift (files_get service req) ;;
    meta <- file_meta_of file ;;
    ret (Some [meta]).

(** [_get_fileids_meta].  [fuel] bounds the depth of the folder recursion and
    the turns of each pagination loop. *)
Fixpoint _get_fileids_meta (fuel : nat) (self : GoogleDriveReader)
    (drive_id folder_id file_id : option string) (mime_types : option nat)
    (query_string : option string) : M (option (list FileMeta)) :=
  match fuel with
  | 0 => out_of_fuel
  | S fuel' =>
      try_log get_error_msg
        (get_fileids_meta_body (_get_fileids_meta fuel' self) fuel' self
           drive_id folder_id file_id mime_types query_string)
  end.

End Enumeration.

(** ** Download *)

Section Download.

Context (build : option Credentials -> DriveService).

Definition download_error_msg : string :=
  "An error occurred while downloading file: ".

(** Lines 328-341: the name the file is saved under and the media request,
    chosen by the MIME type the metadata call reported. *)
Definition download_plan (self : GoogleDriveReader) (mime fileid filename : string)
    : string * MediaRequest :=
  match _mimetypes self !! mime with
  | Some conv => (filename +:+ extension conv, ExportMedia fileid (mimetype conv))
  | None => (filename, GetMedia fileid)
  end.

(** The [try] block of [_download_file] (lines 325-355). *)
Definition download_file_body (self : GoogleDriveReader) (fileid filename : string)
    : M (option string) :=
  let service := build (_creds self) in
  let req := {| get_fileId := Some fileid; get_fields := None |} in
  emit (EvFilesGet req) ;;;
  file <- lift (files_get service req) ;;
  mime <- subscript "mimeType" (item_mimeType file) ;;
  let '(new_file_name, request) := download_plan self mime fileid filename in
  emit (EvMedia request) ;;;
  chunks <- lift (media_chunks service request) ;;
  Fs.write new_file_name (concat chunks) ;;;
  ret (Some new_file_name).

(** [_download_file] *)
Definition _download_file (self : GoogleDriveReader) (fileid filename : string)
    : M (option string) :=
  try_log download_error_msg (download_file_body self fileid filename).

End Download.

(** ** Assembly *)

Record Document := {
  id_ : string;
  text : string;
  metadata : gmap string string;
}.

Definition set_id (new_id : string) (doc : Document) : Document :=
  {| id_ := new_id; text := text doc; metadata := metadata doc |}.

(** [SimpleDirectoryReader(input_dir, file_extractor=..., file_metadata=cb)
    .load_data()]: it is given the directory, sees the files on disk, and asks
    the callback for the metadata of a path. *)
Record DirectoryReader := {
  load_directory :
    string -> gmap string (list Byte.byte) ->
    (string -> result (gmap string string)) -> result (list Document);
}.

(** [tempfile.TemporaryDirectory()] *)
Module TempDir.

Definition name (n : nat) : string := "/tmp/tmp" +:+ pretty n.

(** [mkdtemp]: a new directory, or an error when the name is taken. *)
Definition mkdtemp : M string :=
  fun w =>
    let d := name (tmp_seq w) in
    if bool_decide (d ∈ dirs w) || bool_decide (is_Some (files w !! d))
    then (Raised (OSError "File exists"), set_tmp_seq (S (tmp_seq w)) w)
    else (Returned d, set_tmp_seq (S (tmp_seq w)) (set_fs (files w) ({[d]} ∪ dirs w) w)).

Definition outside (d p : string) : Prop :=
  p ≠ d ∧ Fs.under d p = false.

Global Instance outside_dec d p : Decision (outside d p).
Proof. unfold outside. apply _. Defined.

(** [cleanup]: the directory and everything under it are removed. *)
Definition rmtree (d : string) : M unit :=
  fun w =>
    (Returned tt,
     set_fs (filter (fun kv => outside d kv.1) (files w))
            (filter (outside d) (dirs w)) w).

(** [with tempfile.TemporaryDirectory() as d: body]: the clean-up runs when
    the body returns and when it raises. *)
Definition scoped {A} (body : string -> M A) : M A :=
  d <- mkdtemp ;;
  fun w =>
    match body d w with
    | (Returned a, w') => (rmtree d ;;; ret a) w'
    | (Raised e, w') => (rmtree d ;;; raise e) w'
    | (OutOfFuel, w') => (OutOfFuel, w')
    end.

End TempDir.

Section Assembly.

Context (build : option Credentials -> DriveService) (reader : DirectoryReader).

Definition load_error_msg : string :=
  "An error occurred while loading data from fileids meta: ".

(** Lines 385-392: the metadata object of one file. *)
Definition metadata_of (fileid_meta : FileMeta) : gmap string string :=
  <["file id" := fm_id fileid_meta]>
  (<["author" := fm_author fileid_meta]>
  (<["file name" := fm_name fileid_meta]>
  (<["mime type" := fm_mimeType fileid_meta]>
  (<["created at" := fm_createdTime fileid_meta]>
  (<["modified at" := fm_modifiedTime fileid_meta]> ∅))))).

(** [get_metadata]: [metadata[filename]].  The keys of [metadata] are what
    [_download_file] returned, a path or [None]. *)
Definition get_metadata (metadata : gmap (option string) (gmap string string))
    (filename : string) : result (gmap string string) :=
  match metadata !! Some filename with
  | Some entry => Ok entry
  | None => Err (KeyError filename)
  end.

(** Lines 378-392: one turn of the download loop. *)
Definition stage_file (self : GoogleDriveReader) (temp_dir : string)
    (metadata : gmap (option string) (gmap string string)) (fileid_meta : FileMeta)
    : M (gmap (option string) (gmap string string)) :=
  let fileid := fm_id fileid_meta in
  let filepath := Fs.join temp_dir fileid in
  final_filepath <- _download_file build self fileid filepath ;;
  ret (<[final_filepath := metadata_of fileid_meta]> metadata).

(** Line 400: [doc.id_ = doc.metadata.get("file id", doc.id_)] *)
Definition rewrite_id (doc : Document) : Document :=
  set_id (default (id_ doc) (metadata doc !! "file id")) doc.

(** Lines 372-400: what runs inside the [with] block, given the directory. *)
Definition stage_and_load (self : GoogleDriveReader)
    (fileids_meta : option (list FileMeta)) (temp_dir : string)
    : M (list Document) :=
  metas <- iterate fileids_meta ;;
  metadata <- for_each (stage_file self temp_dir) metas ∅ ;;
  documents <-
    (fun w =>
       lift (load_directory reader temp_dir (files w) (get_metadata metadata)) w) ;;
  ret (map rewrite_id documents).

(** The [try] block of [_load_data_fileids_meta] (lines 370-402). *)
Definition load_data_fileids_meta_body (self : GoogleDriveReader)
    (fileids_meta : option (list FileMeta)) : M (option (list Document)) :=
  documents <- TempDir.scoped (stage_and_load self fileids_meta) ;;
  ret (Some documents).

(** [_load_data_fileids_meta] *)
Definition _load_data_fileids_meta (self : GoogleDriveReader)
    (fileids_meta : option (list FileMeta)) : M (option (list Document)) :=
  try_log load_error_msg (load_data_fileids_meta_body self fileids_meta).

End Assembly.

(** ** The public entry point *)

Section Load.

Context (auth : AuthLib) (build : option Credentials -> DriveService)
        (reader : DirectoryReader).

(** [_load_from_file_ids] *)
Definition _load_from_file_ids (fuel : nat) (self : GoogleDriveReader)
    (drive_id : option string) (file_ids : list string) (mime_types : option nat)
    (query_string : option string) : M (option (list Document)) :=
  try_log "An error occurred while loading with fileid: "
    (fileids_meta <-
       for_each
         (fun fileids_meta file_id =>
            found <- _get_fileids_meta build fuel self drive_id None (Some file_id)
                       mime_types query_string ;;
            extend fileids_meta found)
         file_ids [] ;;
     _load_data_fileids_meta build reader self (Some fileids_meta)).

(** [_load_from_folder] *)
Definition _load_from_folder (fuel : nat) (self : GoogleDriveReader)
    (drive_id : option string) (folder_id : option string) (mime_types : option nat)
    (query_string : option string) : M (option (list Document)) :=
  try_log "An error occurred while loading from folder: "
    (fileids_meta <- _get_fileids_meta build fuel self drive_id folder_id None
                       mime_types query_string ;;
     _load_data_fileids_meta build reader self fileids_meta).

Definition selector_warning : LogRecord :=
  {| level := WARNING;
     message := "Either 'folder_id' or 'file_ids' must be provided.";
     exc_info := None |}.

(** [load_data]: the credential is resolved first, then the mode is chosen. *)
Definition load_data (fuel : nat) (self : GoogleDriveReader)
    (drive_id folder_id : option string) (file_ids : option (list string))
    (mime_types : option nat) (query_string : option string)
    : M (option (list Document)) :=
  creds <- _get_credentials auth self ;;
  let self := set_creds (Some creds) self in
  if truthy_str folder_id then
    _load_from_folder fuel self drive_id folder_id mime_types query_string
  else if truthy_list file_ids then
    _load_from_file_ids fuel self drive_id (default [] file_ids) mime_types query_string
  else
    fun w => (Returned (Some []), add_log selector_warning w).

End Load.

(** ** The export mapping, as the specification lists it *)

(** The three native types with the extension that is appended and the MIME
    type that is asked for on export. *)
Definition native_export (mime : string) : option (string * string) :=
  if String.eqb mime "application/vnd.google-apps.document" then
    Some (".docx",
          "application/vnd.openxmlformats-officedocument.wordprocessingml.document")
  else if String.eqb mime "application/vnd.google-apps.spreadsheet" then
    Some (".xlsx",
          "application/vnd.openxmlformats-officedocument.spreadsheetml.sheet")
  else if String.eqb mime "application/vnd.google-apps.presentation" then
    Some (".pptx",
          "application/vnd.openxmlformats-officedocument.presentationml.presentation")
  else None.

(** What materializing a file of type [mime] should save and request. *)
Definition expected_plan (mime fileid filename : string) : string * MediaRequest :=
  match native_export mime with
  | Some (ext, export_mime) => (filename +:+ ext, ExportMedia fileid export_mime)
  | None => (filename, GetMedia fileid)
  end.

(** ** The directory reader, as the specification describes it *)

(** Modelled from the spec: the generic directory-based extraction layer is
    not part of this source file.  It receives a local directory and a
    metadata lookup callback and returns documents, each carrying a metadata
    block; the block of a document is what the callback gave for the path of
    the file it was read from, so its ["file id"] entry is the callback's. *)
Definition reader_contract (reader : DirectoryReader) : Prop :=
  ∀ dir fs cb docs,
    load_directory reader dir fs cb = Ok docs →
    Forall (fun doc => ∃ path md, cb path = Ok md
                                  ∧ metadata doc !! "file id" = md !! "file id")
           docs.

(** ** Concrete collaborators and worlds

    Small fixed providers on which the embedded methods are run. *)

Module Scenario.

(** An empty machine with a [/tmp] directory. *)
Definition w0 : World :=
  {| heap := ∅; files := ∅; dirs := {["/tmp"]}; tmp_seq := 0; log := []; trace := [] |}.

(** Saved user info yields an expired credential that carries a refresh
    token; the consent flow needs a client configuration. *)
Definition auth : AuthLib :=
  {| from_authorized_user_info := fun _ scopes =>
       Ok {| token := Some "stale"; refresh_token := Some "r1"; expired := true;
             cred_scopes := scopes |};
     from_service_account_info := fun _ scopes =>
       Ok {| token := Some "svc"; refresh_token := None; expired := false;
             cred_scopes := scopes |};
     refresh := fun c =>
       Ok {| token := Some "fresh"; refresh_token := refresh_token c; expired := false;
             cred_scopes := cred_scopes c |};
     run_local_server := fun config scopes =>
       match config with
       | Some _ =>
           Ok {| token := Some "consented"; refresh_token := Some "r2"; expired := false;
                 cred_scopes := scopes |}
       | None => Err (ValueError "client config missing")
       end;
     to_json := fun c => default "" (token c);
     json_load := fun data => Ok (string_of_list_byte data) |}.

Definition consented : Credentials :=
  {| token := Some "consented"; refresh_token := Some "r2"; expired := false;
     cred_scopes := SCOPES |}.

Definition stale : Credentials :=
  {| token := Some "stale"; refresh_token := Some "r1"; expired := true;
     cred_scopes := SCOPES |}.

Definition refreshed : Credentials :=
  {| token := Some "fresh"; refresh_token := Some "r1"; expired := false;
     cred_scopes := SCOPES |}.

(** The reader [GoogleDriveReader(client_config={...})] leaves behind,
    whatever [is_cloud] it is given. *)
Definition reader_with_config : GoogleDriveReader :=
  {| client_config := Some "{cfg}";
     authorized_user_info := None;
     service_account_key := None;
     token_path := "token.json";
     _is_cloud := PyBool false;
     _creds := None;
     _mimetypes := mimetypes_table |}.

(** The same reader with saved user info. *)
Definition reader_with_user_info : GoogleDriveReader :=
  {| client_config := Some "{cfg}";
     authorized_user_info := Some "{user}";
     service_account_key := None;
     token_path := "token.json";
     _is_cloud := PyBool false;
     _creds := None;
     _mimetypes := mimetypes_table |}.

(** *** Providers *)

Definition file_item (id name mime : string) : Item :=
  {| item_id := Some id; item_name := Some name; item_mimeType := Some mime;
     item_owners := Some [Some "Ada"]; item_driveId := None;
     item_createdTime := Some "2024-01-01T00:00:00Z";
     item_modifiedTime := Some "2024-01-02T00:00:00Z" |}.

Definition file_meta (id name mime : string) : FileMeta :=
  {| fm_id := id; fm_author := "Ada"; fm_name := name; fm_mimeType := mime;
     fm_createdTime := "2024-01-01T00:00:00Z";
     fm_modifiedTime := "2024-01-02T00:00:00Z" |}.

Definition page (items : list Item) (next : option string) : ListResponse :=
  {| resp_files := Some items; nextPageToken := next |}.

Definition pdf : string := "application/pdf".
Definition docx : string :=
  "application/vnd.openxmlformats-officedocument.wordprocessingml.document".
Definition google_doc : string := "application/vnd.google-apps.document".
Definition plain : string := "text/plain".

Definition item_A : Item := file_item "A" "a.pdf" pdf.
Definition item_B : Item := file_item "B" "b.docx" docx.
Definition item_C : Item := file_item "C" "c.pdf" pdf.
Definition item_S : Item := file_item "S" "sub" folder_mime_type.
Definition item_X : Item := file_item "X" "notes" google_doc.
Definition item_Y : Item := file_item "Y" "readme.txt" plain.

Definition bytes (s : string) : list Byte.byte := list_byte_of_string s.

Definition get_by_id (req : GetRequest) : result Item :=
  match get_fileId req with
  | Some id =>
      if String.eqb id "A" then Ok item_A
      else if String.eqb id "B" then Ok item_B
      else if String.eqb id "C" then Ok item_C
      else if String.eqb id "X" then Ok item_X
      else if String.eqb id "Y" then Ok item_Y
      else Err (HttpError "File not found")
  | None => Err (TypeError "Missing required parameter fileId")
  end.

Definition chunks_of (req : MediaRequest) : result (list (list Byte.byte)) :=
  match req with
  | ExportMedia id _ => Ok [bytes "exported:"; bytes id]
  | GetMedia id => Ok [bytes "raw:"; bytes id]
  end.

(** A folder ["F"] whose listing comes in two pages: the first page holds
    [A] and a continuation token, the page served for that token holds [C]
    and no token. *)
Definition paged_drive : DriveService :=
  {| files_list := fun req =>
       match pageToken req with
       | None => Ok (page [item_A] (Some "page-2"))
       | Some _ => Ok (page [item_C] None)
       end;
     files_get := get_by_id;
     media_chunks := chunks_of |}.

Definition pdf_or_folder : string :=
  " and (mimeType='application/pdf' or mimeType='application/vnd.google-apps.folder')".

(** The tree [F = {A (pdf), B (docx), S = {C (pdf)}}], served in single pages
    by a provider that applies the MIME clause of the query. *)
Definition tree_drive : DriveService :=
  {| files_list := fun req =>
       if String.eqb (q req) ("('F' in parents)" +:+ pdf_or_folder)
       then Ok (page [item_A; item_S] None)
       else if String.eqb (q req) ("('S' in parents)" +:+ pdf_or_folder)
       then Ok (page [item_C] None)
       else if String.eqb (q req) "('F' in parents)"
       then Ok (page [item_A; item_B; item_S] None)
       else if String.eqb (q req) "('S' in parents)"
       then Ok (page [item_C] None)
       else Ok (page [] None);
     files_get := get_by_id;
     media_chunks := chunks_of |}.

(** A provider that is down. *)
Definition failing_drive : DriveService :=
  {| files_list := fun _ => Err (HttpError "503");
     files_get := fun _ => Err (HttpError "503");
     media_chunks := fun _ => Err (HttpError "503") |}.

(** A provider that answers metadata requests and fails every download. *)
Definition media_down_drive : DriveService :=
  {| files_list := fun _ => Ok (page [] None);
     files_get := get_by_id;
     media_chunks := fun _ => Err (HttpError "download failed") |}.

Definition paged_build (_ : option Credentials) : DriveService := paged_drive.
Definition tree_build (_ : option Credentials) : DriveService := tree_drive.
Definition failing_build (_ : option Credentials) : DriveService := failing_drive.
Definition media_down_build (_ : option Credentials) : DriveService :=
  media_down_drive.

(** *** A directory reader *)

Fixpoint collect {A B} (f : A -> result B) (xs : list A) : result (list B) :=
  match xs with
  | [] => Ok []
  | x :: xs' =>
      match f x with
      | Ok b =>
          match collect f xs' with
          | Ok bs => Ok (b :: bs)
          | Err e => Err e
          end
      | Err e => Err e
      end
  end.

Definition document_of (cb : string -> result (gmap string string))
    (entry : string * list Byte.byte) : result Document :=
  match cb entry.1 with
  | Ok md =>
      Ok {| id_ := "doc:" +:+ entry.1; text := string_of_list_byte entry.2;
            metadata := md |}
  | Err e => Err e
  end.

(** One document per file under the directory, with the text of the file and
    the metadata the callback gives for its path. *)
Definition dir_reader : DirectoryReader :=
  {| load_directory := fun dir fs cb =>
       match filter (fun entry => Fs.under dir entry.1 = true) (map_to_list fs) with
       | [] => Err (ValueError "No files found")
       | entries => collect (document_of cb) entries
       end |}.

(** A directory reader that cannot read anything. *)
Definition failing_reader : DirectoryReader :=
  {| load_directory := fun _ _ _ => Err (ValueError "unreadable") |}.

(** Two files to assemble: a Google document and a plain text file. *)
Definition meta_X : FileMeta := file_meta "X" "notes" google_doc.
Definition meta_Y : FileMeta := file_meta "Y" "readme.txt" plain.

(** A second tuple with the identifier of [meta_Y]. *)
Definition meta_Y' : FileMeta := file_meta "Y" "copy.txt" plain.

(** The caller holds the filter list [["application/pdf"]] at address 0. *)
Definition w_filter : World :=
  {| heap := {[ 0 := [pdf] ]}; files := ∅; dirs := {["/tmp"]}; tmp_seq := 0;
     log := []; trace := [] |}.

(** A machine on which the next scratch name is taken. *)
Definition w_taken : World :=
  {| heap := ∅; files := ∅; dirs := {["/tmp"; "/tmp/tmp0"]}; tmp_seq := 0;
     log := []; trace := [] |}.

End Scenario.

(** ** Predicates of the statements and proofs *)

(** [m] leaves every list object as it is when started in a heap that
    satisfies [Q]. *)
Definition heap_frame {A} (Q : gmap nat (list string) → Prop) (m : M A) : Prop :=
  ∀ w, Q (heap w) → heap (snd (m w)) = heap w.

(** The filter list no longer changes: there is no list, or it is empty, or
    it already holds the folder type. *)
Definition settled (mime_types : option nat) (h : gmap nat (list string)) : Prop :=
  match mime_types with
  | None => True
  | Some l =>
      match default [] (h !! l) with
      | [] => True
      | mts => folder_mime_type ∈ mts
      end
  end.

(** The events of credential resolution. *)
Definition auth_event (ev : Event) : Prop :=
  ev = EvTokenRefresh ∨ ev = EvConsentFlow.

(** The list the MIME clause is built from: the caller's list, with the
    folder type appended when it was missing. *)
Definition effective_filter (mts : list string) : list string :=
  if bool_decide (folder_mime_type ∈ mts) then mts else mts ++ [folder_mime_type].

(** The request folder-mode enumeration sends for the folder [folder_id]. *)
Definition folder_request (drive_id : option string) (mime_list : list string)
    (query_string : option string) (folder_id : string) : ListRequest :=
  list_request drive_id
    (add_query_string query_string
       (and_mime_query ("('" +:+ folder_id +:+ "' in parents)") mime_list)).

(** The provider applies the MIME clause of such a request: every item it
    lists has one of the types of the clause, and a folder it lists carries a
    non-empty identifier. *)
Definition listing_respects_filter (service : DriveService) (drive_id : option string)
    (mime_list : list string) (query_string : option string) : Prop :=
  ∀ folder_id resp,
    files_list service (folder_request drive_id mime_list query_string folder_id)
      = Ok resp →
    Forall (fun item =>
              (∀ mime, item_mimeType item = Some mime → mime ∈ mime_list)
              ∧ (item_mimeType item = Some folder_mime_type →
                 truthy_str (item_id item) = true))
           (default [] (resp_files resp)).

(** Every folder that a listing in the trace [t] shows has been listed in [t]
    itself. *)
Definition subfolders_listed (service : DriveService)
    (request_of : string → ListRequest) (t : list Event) : Prop :=
  ∀ parent resp item id,
    EvFilesList (request_of parent) ∈ t →
    files_list service (request_of parent) = Ok resp →
    item ∈ default [] (resp_files resp) →
    item_mimeType item = Some folder_mime_type →
    item_id item = Some id →
    EvFilesList (request_of id) ∈ t.

(** A tuple that passes the caller's filter and is not a folder. *)
Definition passes_filter (mts : list string) (m : FileMeta) : Prop :=
  fm_mimeType m ∈ mts ∧ fm_mimeType m ≠ folder_mime_type.

(** What a successful folder-mode call establishes for the folder [fid], the
    list [mts] found in the list object [l] and the world it leaves: the list
    object holds the effective filter, every tuple passes it, the folder was
    listed and so was every folder a listing showed. *)
Definition enumeration_outcome (service : DriveService) (l : nat)
    (query_string : option string) (drive_id : option string) (mts : list string)
    (fid : string) (w : World) (metas : list FileMeta) (w' : World) : Prop :=
  heap w' !! l = Some (effective_filter mts)
  ∧ Forall (passes_filter (effective_filter mts)) metas
  ∧ ∃ t, trace w' = trace w ++ t
         ∧ EvFilesList (folder_request drive_id (effective_filter mts) query_string fid) ∈ t
         ∧ subfolders_listed service
             (folder_request drive_id (effective_filter mts) query_string) t.

(** ** Failures and the log *)

(** The record that [logger.error(msg + str(e), exc_info=True)] appends. *)
Definition error_record (msg : string) (e : exn) : LogRecord :=
  {| level := ERROR; message := msg; exc_info := Some e |}.

(** The call that left [r] when started in [w] did not let [e] through: it
    returned [None], and the log of the world it left is the log of [w], then
    the records [earlier], then the error record of [e] as its last entry. *)
Definition caught_and_logged {A} (msg : string) (e : exn) (earlier : list LogRecord)
    (w : World) (r : outcome (option A) * World) : Prop :=
  fst r = Returned None
  ∧ log (snd r) = log w ++ earlier ++ [error_record msg e].

(** The list the caller's filter object holds when the call starts. *)
Definition caller_filter (mime_types : option nat) (w : World) : list string :=
  match mime_types with
  | None => []
  | Some l => default [] (heap w !! l)
  end.

(** The listing request folder-mode enumeration sends first, for the folder
    [folder_id] and the caller's filter [mts]. *)
Definition enumeration_request (drive_id : option string) (mts : list string)
    (query_string : option string) (folder_id : string) : ListRequest :=
  match mts with
  | [] =>
      list_request drive_id
        (add_query_string query_string ("('" +:+ folder_id +:+ "' in parents)"))
  | _ :: _ => folder_request drive_id (effective_filter mts) query_string folder_id
  end.


(** ** Further worlds and providers *)

Module Disk.

(** A machine on which a client configuration and a saved token are on disk
    under the default names. *)
Definition w_files : World :=
  {| heap := ∅;
     files := {[ "credentials.json" := Scenario.bytes "{file-cfg}";
                 "token.json" := Scenario.bytes "{file-user}" ]};
     dirs := {["/tmp"]}; tmp_seq := 0; log := []; trace := [] |}.

End Disk.

(** ** The tuple of an item *)

(** The author the enumeration records: ["Shared Drive"] when the item has a
    [driveId] key, else the display name of its first owner. *)
Definition author_of_item (item : Item) : option string :=
  match item_driveId item with
  | Some _ => Some "Shared Drive"
  | None =>
      match item_owners item with
      | Some (Some name :: _) => Some name
      | _ => None
      end
  end.

(** The 6-tuple of an item that has every key the enumeration reads. *)
Definition tuple_of (item : Item) : option FileMeta :=
  match author_of_item item, item_id item, item_name item, item_mimeType item,
        item_createdTime item, item_modifiedTime item with
  | Some author, Some id, Some name, Some mime, Some created, Some modified =>
      Some {| fm_id := id; fm_author := author; fm_name := name; fm_mimeType := mime;
              fm_createdTime := created; fm_modifiedTime := modified |}
  | _, _, _, _, _, _ => None
  end.

(** A listed item that is a plain file with every key: its tuple is [m]. *)
Definition plain_file (item : Item) (m : FileMeta) : Prop :=
  tuple_of item = Some m ∧ fm_mimeType m ≠ folder_mime_type.

Module Shared.

(** A file in a shared drive: it has a [driveId] and no [owners]. *)
Definition item_D : Item :=
  {| item_id := Some "D"; item_name := Some "plan.pdf";
     item_mimeType := Some Scenario.pdf; item_owners := None;
     item_driveId := Some "drive-1";
     item_createdTime := Some "2024-03-01T00:00:00Z";
     item_modifiedTime := Some "2024-03-02T00:00:00Z" |}.

(** A file outside any shared drive whose metadata has no [owners]. *)
Definition item_N : Item :=
  {| item_id := Some "N"; item_name := Some "orphan.txt";
     item_mimeType := Some Scenario.plain; item_owners := None;
     item_driveId := None;
     item_createdTime := Some "2024-03-01T00:00:00Z";
     item_modifiedTime := Some "2024-03-02T00:00:00Z" |}.

Definition drive : DriveService :=
  {| files_list := fun _ => Ok (Scenario.page [] None);
     files_get := fun req =>
       match get_fileId req with
       | Some id =>
           if String.eqb id "D" then Ok item_D
           else if String.eqb id "N" then Ok item_N
           else Scenario.get_by_id req
       | None => Scenario.get_by_id req
       end;
     media_chunks := Scenario.chunks_of |}.

Definition build (_ : option Credentials) : DriveService := drive.

End Shared.

Module Flat.

(** Folder ["F"] holds the plain files [A] and [B]; its listing is one
    page. *)
Definition drive : DriveService :=
  {| files_list := fun req =>
       if String.eqb (q req) "('F' in parents)"
       then Ok (Scenario.page [Scenario.item_A; Scenario.item_B] None)
       else Ok (Scenario.page [] None);
     files_get := Scenario.get_by_id;
     media_chunks := Scenario.chunks_of |}.

Definition build (_ : option Credentials) : DriveService := drive.

End Flat.

(** ** Reading the trace *)

(** The metadata requests of a trace, in order. *)
Definition get_requests (t : list Event) : list GetRequest :=
  omap (fun ev => match ev with EvFilesGet req => Some req | _ => None end) t.

Definition metadata_event (ev : Event) : Prop := ∃ req, ev = EvFilesGet req.

Definition media_event (ev : Event) : Prop := ∃ req, ev = EvMedia req.

(** The request [_download_file] starts with. *)
Definition download_lookup (m : FileMeta) : GetRequest :=
  {| get_fileId := Some (fm_id m); get_fields := None |}.

Module Broken.

(** The authentication library of the scenario, except that the token
    endpoint rejects the refresh. *)
Definition auth : AuthLib :=
  {| from_authorized_user_info := from_authorized_user_info Scenario.auth;
     from_service_account_info := from_service_account_info Scenario.auth;
     refresh := fun _ => Err (RefreshError "invalid_grant");
     run_local_server := run_local_server Scenario.auth;
     to_json := to_json Scenario.auth;
     json_load := json_load Scenario.auth |}.

End Broken.

Module Partial.

(** Folder ["F"] lists the file [A] and the subfolder [S]; listing [S]
    fails. *)
Definition drive : DriveService :=
  {| files_list := fun req =>
       if String.eqb (q req) "('F' in parents)"
       then Ok (Scenario.page [Scenario.item_A; Scenario.item_S] None)
       else Err (HttpError "500");
     files_get := Scenario.get_by_id;
     media_chunks := Scenario.chunks_of |}.

Definition build (_ : option Credentials) : DriveService := drive.

End Partial.

(** The request of an unfiltered folder-mode listing. *)
Definition plain_request (drive_id query_string : option string) (folder_id : string)
    : ListRequest :=
  list_request drive_id
    (add_query_string query_string ("('" +:+ folder_id +:+ "' in parents)")).

(** The caller holds an empty filter list at address 0. *)
Definition w_empty_filter : World :=
  {| heap := {[ 0 := [] ]}; files := ∅; dirs := {["/tmp"]}; tmp_seq := 0;
     log := []; trace := [] |}.

(** * Properties *)

(** ** Running the monad *)

Ltac run :=
  repeat (unfold bind, ret, raise, lift, emit, subscript, out_of_fuel in *; simpl in *).

Lemma bind_ret_l {A B} (a : A) (k : A -> M B) w : bind (ret a) k w = k a w.
Proof. reflexivity. Qed.

Lemma bind_returned {A B} (m : M A) (k : A -> M B) w a w' :
  m w = (Returned a, w') -> bind m k w = k a w'.
Proof. intros H. unfold bind. by rewrite H. Qed.

Lemma bind_raised {A B} (m : M A) (k : A -> M B) w e w' :
  m w = (Raised e, w') -> bind m k w = (Raised e, w').
Proof. intros H. unfold bind. by rewrite H. Qed.

Lemma bind_out_of_fuel {A B} (m : M A) (k : A -> M B) w w' :
  m w = (OutOfFuel, w') -> bind m k w = (OutOfFuel, w').
Proof. intros H. unfold bind. by rewrite H. Qed.

(** A bind that returned: both halves did. *)
Lemma bind_inv {A B} (m : M A) (k : A → M B) w b w' :
  bind m k w = (Returned b, w') →
  ∃ a w1, m w = (Returned a, w1) ∧ k a w1 = (Returned b, w').
Proof.
  unfold bind. destruct (m w) as [[a|e|] w1]; try done. eauto.
Qed.

(** The three ways [Fs.write] can go. *)
Ltac write_cases :=
  unfold Fs.write; simpl;
  match goal with
  | |- context [bool_decide (?p ∈ dirs ?w)] =>
      destruct (bool_decide (p ∈ dirs w)); simpl;
      [| match goal with
         | |- context [Fs.parent_exists ?p' ?w'] =>
             destruct (Fs.parent_exists p' w'); simpl
         end]
  end.

(** ** Credentials *)

Section AuthenticationFacts.

Context (auth : AuthLib).

Lemma expired_not_valid (c : Credentials) : expired c = true -> valid c = false.
Proof. unfold valid. intros ->. by destruct (token c). Qed.

(** Whatever [is_cloud] the constructor is given, the reader it returns
    holds the declared default in [_is_cloud]: the tuple assigned at line 78
    does not outlive the base-class constructor. *)
Lemma constructed_is_cloud_default is_cloud cp tp sp cc ui sk w self w' :
  __init__ auth is_cloud cp tp sp cc ui sk w = (Returned self, w') ->
  _is_cloud self = PyBool false.
Proof.
  unfold __init__. cbv zeta. intros H.
  unfold bind in H.
  destruct (load_if_missing auth cc cp w) as [[c1| |] w1]; try done.
  destruct (load_if_missing auth ui tp w1) as [[c2| |] w2]; try done.
  destruct (load_if_missing auth sk sp w2) as [[c3| |] w3]; try done.
  destruct c1, c3; simpl in H; inversion H; subst; done.
Qed.

(** A credential that [renew_and_save] returns for a reader whose
    [_is_cloud] is falsy is in the token file. *)
Lemma renew_and_save_writes (self : GoogleDriveReader) creds w c w' :
  truthy (_is_cloud self) = false ->
  renew_and_save auth self creds w = (Returned c, w') ->
  files w' !! token_path self = Some (list_byte_of_string (to_json auth c)).
Proof.
  intros Hcloud. unfold renew_and_save. rewrite Hcloud. simpl.
  intros H. apply bind_inv in H as (c' & w1 & _ & H).
  apply bind_inv in H as ([] & w2 & Hwrite & [= <- <-]).
  revert Hwrite. unfold Fs.write.
  destruct (bool_decide (token_path self ∈ dirs w1)); [done|].
  destruct (Fs.parent_exists (token_path self) w1); [|done].
  intros [= <-]. apply lookup_insert_eq.
Qed.

(** A call of [_get_credentials] that returns has sent a request exactly
    when it went through [renew_and_save]. *)
Lemma get_credentials_renewed (self : GoogleDriveReader) w c w' :
  _get_credentials auth self w = (Returned c, w') ->
  trace w' ≠ trace w ->
  ∃ creds, renew_and_save auth self creds w = (Returned c, w').
Proof.
  unfold _get_credentials. intros H Htrace.
  destruct (authorized_user_info self) as [info|].
  - apply bind_inv in H as (c0 & w1 & Hc0 & H).
    destruct (from_authorized_user_info auth info SCOPES); simpl in Hc0; [|done].
    injection Hc0 as -> <-.
    destruct (valid c0); simpl in H; [|eauto].
    injection H as <- <-. done.
  - destruct (service_account_key self) as [key|]; [|eauto].
    destruct (from_service_account_info auth key SCOPES); simpl in H; [|done].
    injection H as <- <-. done.
Qed.

(** C8.  Credential resolution order of [_get_credentials]:
    (1) saved authorized-user info, when present, is what the user credential
        is built from, and a valid one is returned as it is;
    (2) otherwise a service-account key yields the service credential, scoped
        to read-only Drive access, at once: nothing is requested and the world
        is unchanged, so the interactive flow is bypassed;
    (3) otherwise the consent flow runs from the client configuration, and a
        credential that is returned is the one it produced;
    and a user credential that is expired and carries a refresh token is
    refreshed: the only request is the refresh, not the consent flow, and a
    credential that is returned is the refreshed one. *)
Theorem credential_resolution_order (self : GoogleDriveReader) (w : World) :
  let r := _get_credentials auth self w in
  (∀ info, authorized_user_info self = Some info →
     (∀ e, from_authorized_user_info auth info SCOPES = Err e → r = (Raised e, w))
     ∧ (∀ c, from_authorized_user_info auth info SCOPES = Ok c →
          (valid c = true → r = (Returned c, w))
          ∧ (expired c = true → truthy_str (refresh_token c) = true →
               trace (snd r) = trace w ++ [EvTokenRefresh]
               ∧ (∀ e, refresh auth c = Err e → fst r = Raised e)
               ∧ (∀ c', fst r = Returned c' → refresh auth c = Ok c'))))
  ∧ (∀ key, authorized_user_info self = None → service_account_key self = Some key →
       r = (match from_service_account_info auth key
                    ["https://www.googleapis.com/auth/drive.readonly"] with
            | Ok c => Returned c
            | Err e => Raised e
            end, w))
  ∧ (authorized_user_info self = None → service_account_key self = None →
       trace (snd r) = trace w ++ [EvConsentFlow]
       ∧ (∀ e, run_local_server auth (client_config self) SCOPES = Err e →
            fst r = Raised e)
       ∧ (∀ c, fst r = Returned c →
            run_local_server auth (client_config self) SCOPES = Ok c)).
Proof.
  cbv zeta. unfold _get_credentials, renew_and_save, consent_flow.
  split; [|split].
  - intros info ->. split.
    + intros e He. run. by rewrite He.
    + intros c Hc. run. rewrite Hc. simpl. split.
      * by intros ->.
      * intros Hexp Hrt. rewrite (expired_not_valid _ Hexp), Hexp, Hrt. simpl.
        destruct (refresh auth c) as [c'|e] eqn:Href; simpl.
        -- destruct (truthy (_is_cloud self)); simpl.
           ++ split; [done|]. split; [done|]. by intros ? [= ->].
           ++ write_cases; (split; [done|]); (split; [done|]);
                intros ? [=]; by subst.
        -- split; [done|]. split; [by intros ? [= ->]|]. by intros ? [=].
  - intros key -> ->. unfold SCOPES.
    by destruct (from_service_account_info auth key _).
  - intros -> ->. run.
    destruct (run_local_server auth (client_config self) SCOPES) as [c|e]; simpl.
    + destruct (truthy (_is_cloud self)); simpl.
      * split; [done|]. split; [done|]. by intros ? [= ->].
      * write_cases; (split; [done|]); (split; [done|]);
          intros ? [=]; by subst.
    + split; [done|]. split; [by intros ? [= ->]|]. by intros ? [=].
Qed.

End AuthenticationFacts.

(** On the concrete library: saved user info gives an expired credential with
    a refresh token, and the reader refreshes it without the consent flow. *)
Lemma credential_resolution_order_witness :
  fst (_get_credentials Scenario.auth Scenario.reader_with_user_info Scenario.w0)
    = Returned Scenario.refreshed
  ∧ trace (snd (_get_credentials Scenario.auth Scenario.reader_with_user_info Scenario.w0))
    = [EvTokenRefresh]
  ∧ fst (_get_credentials Scenario.auth Scenario.reader_with_config Scenario.w0)
    = Returned Scenario.consented
  ∧ trace (snd (_get_credentials Scenario.auth Scenario.reader_with_config Scenario.w0))
    = [EvConsentFlow].
Proof.
  pose proof (credential_resolution_order Scenario.auth
                Scenario.reader_with_user_info Scenario.w0) as [Huser _].
  destruct (Huser "{user}" eq_refl) as [_ Hok].
  destruct (Hok Scenario.stale eq_refl) as [_ Hrefresh].
  destruct (Hrefresh eq_refl eq_refl) as [Htrace _].
  pose proof (credential_resolution_order Scenario.auth
                Scenario.reader_with_config Scenario.w0) as (_ & _ & Hflow).
  destruct (Hflow eq_refl eq_refl) as [Htrace' _].
  split; [reflexivity|]. split; [exact Htrace|]. split; [reflexivity|exact Htrace'].
Defined.

(** C2.  The [is_cloud] argument of the constructor has no effect on the
    token file.  For every value of [is_cloud], [True] included: when the
    reader the constructor returns resolves its credential through a refresh
    or the consent flow (it has sent a request) and returns it, the token
    file holds the serialized credential.  The attribute the test at line 157
    reads is [False] in every constructed reader. *)
Theorem cloud_reader_saves_token (auth : AuthLib) (is_cloud : pyval)
    (credentials_path token_path_arg service_account_key_path : string)
    (client_config_arg authorized_user_info_arg service_account_key_arg :
       option JsonDict)
    (w : World) (self : GoogleDriveReader) (w1 : World) (c : Credentials)
    (w2 : World) :
  __init__ auth is_cloud credentials_path token_path_arg service_account_key_path
    client_config_arg authorized_user_info_arg service_account_key_arg w
    = (Returned self, w1) →
  _get_credentials auth self w1 = (Returned c, w2) →
  trace w2 ≠ trace w1 →
  _is_cloud self = PyBool false
  ∧ files w2 !! token_path_arg = Some (list_byte_of_string (to_json auth c)).
Proof.
  intros Hinit Hcreds Htrace.
  pose proof (constructed_is_cloud_default _ _ _ _ _ _ _ _ _ _ _ Hinit) as Hcloud.
  split; [done|].
  assert (token_path self = token_path_arg) as <-.
  { revert Hinit. unfold __init__. cbv zeta. unfold bind.
    destruct (load_if_missing auth _ credentials_path w) as [[c1| |] w3]; try done.
    destruct (load_if_missing auth _ token_path_arg w3) as [[c2| |] w4]; try done.
    destruct (load_if_missing auth _ service_account_key_path w4) as [[c3| |] w5];
      try done.
    destruct c1, c3; simpl; intros [= <- <-]; done. }
  destruct (get_credentials_renewed _ _ _ _ _ Hcreds Htrace) as [creds Hrenew].
  eapply renew_and_save_writes; [|exact Hrenew]. by rewrite Hcloud.
Qed.

(** [GoogleDriveReader(is_cloud=True, client_config={...})] on an empty
    machine: the consent flow runs and its credential is written to
    [token.json]. *)
Lemma cloud_reader_saves_token_witness :
  __init__ Scenario.auth (PyBool true) "credentials.json" "token.json"
    "service_account_key.json" (Some "{cfg}") None None Scenario.w0
  = (Returned Scenario.reader_with_config, Scenario.w0)
  ∧ fst (_get_credentials Scenario.auth Scenario.reader_with_config Scenario.w0)
    = Returned Scenario.consented
  ∧ _is_cloud Scenario.reader_with_config = PyBool false
  ∧ files (snd (_get_credentials Scenario.auth Scenario.reader_with_config
                  Scenario.w0)) !! "token.json"
    = Some (Scenario.bytes "consented").
Proof.
  split; [reflexivity|]. split; [reflexivity|].
  apply (cloud_reader_saves_token Scenario.auth (PyBool true) "credentials.json"
           "token.json" "service_account_key.json" (Some "{cfg}") None None
           Scenario.w0 Scenario.reader_with_config Scenario.w0 Scenario.consented
           (snd (_get_credentials Scenario.auth Scenario.reader_with_config
                   Scenario.w0))).
  - reflexivity.
  - reflexivity.
  - simpl. discriminate.
Defined.

(** ** Pagination *)

Section PaginationFacts.

Context (service : DriveService).

(** A listing whose answer carries no token is read in one turn. *)
Lemma list_pages_single (fuel : nat) req resp items w :
  files_list service req = Ok resp ->
  nextPageToken resp = None ->
  list_pages (S fuel) service req items w
  = (Returned (items ++ default [] (resp_files resp)), add_event (EvFilesList req) w).
Proof. intros Hresp Hnone. simpl. run. by rewrite Hresp, Hnone. Qed.

(** The request of every turn is the same one, so a first answer that carries
    a token is received again and again: the loop is still running whatever
    the number of turns followed. *)
Lemma list_pages_stuck (fuel : nat) req resp tok items w :
  files_list service req = Ok resp ->
  nextPageToken resp = Some tok ->
  ∃ w', list_pages fuel service req items w = (OutOfFuel, w')
        ∧ trace w' = trace w ++ replicate fuel (EvFilesList req)
        ∧ heap w' = heap w.
Proof.
  intros Hresp Htok. revert items w.
  induction fuel as [|fuel IH]; intros items w; simpl.
  - exists w. by rewrite app_nil_r.
  - run. rewrite Hresp. simpl. rewrite Htok.
    destruct (IH (items ++ default [] (resp_files resp)) (add_event (EvFilesList req) w))
      as (w' & Heq & Htrace & Hheap).
    exists w'. split; [done|]. split; [|done].
    rewrite Htrace. simpl. by rewrite <- app_assoc.
Qed.

End PaginationFacts.

(** C1.  Folder ["F"] is served in two pages, [A] with a continuation token
    and then [C].  However many turns are followed, [_get_fileids_meta] has
    not returned: every request it sent is the first-page request, without a
    page token, and the concatenation [A; C] is never produced. *)
Theorem paginated_listing_never_returns (fuel : nat) :
  let r := _get_fileids_meta Scenario.paged_build fuel Scenario.reader_with_config
             None (Some "F") None None None Scenario.w0 in
  fst r = OutOfFuel
  ∧ Forall (fun ev => ev = EvFilesList (list_request None "('F' in parents)"))
      (trace (snd r)).
Proof.
  cbv zeta. destruct fuel as [|fuel]; [by split|].
  destruct (list_pages_stuck Scenario.paged_drive fuel
              (list_request None "('F' in parents)")
              (Scenario.page [Scenario.item_A] (Some "page-2")) "page-2"
              [] Scenario.w0 eq_refl eq_refl) as (w' & Heq & Htrace & _).
  simpl. unfold try_log, get_fileids_meta_body. simpl.
  rewrite bind_ret_l.
  rewrite (bind_out_of_fuel _ _ _ _ Heq). simpl. split; [done|].
  rewrite Htrace. simpl. apply Forall_forall. intros ev Hin.
  by apply elem_of_replicate in Hin as [-> _].
Qed.

(** ** The exception handler *)

Lemma try_log_never_raises {A} msg (body : M (option A)) w e :
  fst (try_log msg body w) ≠ Raised e.
Proof. unfold try_log. by destruct (body w) as [[?|?|] ?]. Qed.

Lemma try_log_catches {A} msg (body : M (option A)) w e w' :
  body w = (Raised e, w') ->
  try_log msg body w
  = (Returned None,
     add_log {| level := ERROR; message := msg; exc_info := Some e |} w').
Proof. intros H. unfold try_log. by rewrite H. Qed.

Lemma try_log_returned {A} msg (body : M (option A)) w a w' :
  body w = (Returned a, w') -> try_log msg body w = (Returned a, w').
Proof. intros H. unfold try_log. by rewrite H. Qed.

(** What [try_log] returned came from the body or from the handler. *)
Lemma try_log_inv {A} msg (body : M (option A)) w a w' :
  try_log msg body w = (Returned a, w') ->
  body w = (Returned a, w')
  ∨ ∃ e w1, body w = (Raised e, w1) ∧ a = None
            ∧ w' = add_log {| level := ERROR; message := msg; exc_info := Some e |} w1.
Proof.
  unfold try_log. destruct (body w) as [[b|e|] w1]; intros [= <- <-]; eauto 6.
Qed.

(** ** Download *)

(** The table the constructor installs is the export mapping. *)
Lemma mimetypes_table_lookup (mime : string) :
  mimetypes_table !! mime
  = match native_export mime with
    | Some (ext, export_mime) => Some {| mimetype := export_mime; extension := ext |}
    | None => None
    end.
Proof.
  unfold mimetypes_table, native_export.
  repeat (rewrite lookup_insert; case_decide;
          [ subst mime; reflexivity
          | match goal with
            | |- context [String.eqb mime ?k] =>
                destruct (String.eqb_spec mime k); [congruence|]
            end ]).
  apply lookup_empty.
Qed.

Lemma download_plan_expected (self : GoogleDriveReader) mime fileid filename :
  _mimetypes self = mimetypes_table ->
  download_plan self mime fileid filename = expected_plan mime fileid filename.
Proof.
  intros Htable. unfold download_plan, expected_plan.
  rewrite Htable, mimetypes_table_lookup.
  by destruct (native_export mime) as [[ext export_mime]|].
Qed.

Section DownloadFacts.

Context (build : option Credentials -> DriveService).

(** C4.  For a file whose metadata reports the MIME type [mime]:
    [_download_file] asks for the metadata and then issues exactly one media
    request.  When [mime] is one of the three native Google types the request
    is an export with the mapped MIME type and the path is the base path with
    the mapped extension appended; for any other type it is the raw media
    request and the path is the base path unchanged.  That path is the only
    path the method can return, and it does return it, with the chunks
    written there in order, when the download succeeds and the file can be
    created. *)
Theorem export_mapping (self : GoogleDriveReader) (fileid filename : string)
    (w : World) (file : Item) (mime : string) :
  _mimetypes self = mimetypes_table →
  files_get (build (_creds self)) {| get_fileId := Some fileid; get_fields := None |}
    = Ok file →
  item_mimeType file = Some mime →
  let r := _download_file build self fileid filename w in
  let plan := expected_plan mime fileid filename in
  trace (snd r)
    = trace w ++ [EvFilesGet {| get_fileId := Some fileid; get_fields := None |};
                  EvMedia plan.2]
  ∧ (∀ p, fst r = Returned (Some p) → p = plan.1)
  ∧ (∀ chunks,
       media_chunks (build (_creds self)) plan.2 = Ok chunks →
       plan.1 ∉ dirs w → Fs.parent_exists plan.1 w = true →
       fst r = Returned (Some plan.1)
       ∧ files (snd r) !! plan.1 = Some (concat chunks)).
Proof.
  intros Htable Hget Hmime. cbv zeta.
  unfold _download_file, try_log, download_file_body.
  run. rewrite Hget. simpl. rewrite Hmime. simpl.
  rewrite (download_plan_expected self mime fileid filename Htable).
  destruct (expected_plan mime fileid filename) as [path request]. simpl.
  destruct (media_chunks (build (_creds self)) request) as [chunks|e] eqn:Hchunks;
    simpl.
  - unfold Fs.write, Fs.parent_exists. simpl.
    destruct (bool_decide (path ∈ dirs w)) eqn:Hdir; simpl.
    + rewrite <- app_assoc. split; [done|]. split; [by intros ? [=]|].
      intros ? _ Hnot _. by apply bool_decide_eq_true in Hdir.
    + destruct (_ || _) eqn:Hparent; simpl.
      * rewrite <- app_assoc. split; [done|]. split; [by intros ? [= ->]|].
        intros chunks' [= <-] _ _. split; [done|]. apply lookup_insert_eq.
      * rewrite <- app_assoc. split; [done|]. split; [by intros ? [=]|].
        intros ? _ _ Hp. unfold Fs.parent_exists in Hp. congruence.
  - rewrite <- app_assoc. split; [done|]. split; [by intros ? [=]|]. by intros ? [=].
Qed.

End DownloadFacts.

(** A Google document ["X"] is exported as [.docx]; the plain text file ["Y"]
    is fetched as it is. *)
Lemma export_mapping_witness :
  (fst (_download_file Scenario.tree_build Scenario.reader_with_config "X" "/tmp/X"
          Scenario.w0) = Returned (Some "/tmp/X.docx")
   ∧ trace (snd (_download_file Scenario.tree_build Scenario.reader_with_config
                   "X" "/tmp/X" Scenario.w0))
     = [EvFilesGet {| get_fileId := Some "X"; get_fields := None |};
        EvMedia (ExportMedia "X" Scenario.docx)])
  ∧ (fst (_download_file Scenario.tree_build Scenario.reader_with_config "Y" "/tmp/Y"
            Scenario.w0) = Returned (Some "/tmp/Y")
     ∧ trace (snd (_download_file Scenario.tree_build Scenario.reader_with_config
                     "Y" "/tmp/Y" Scenario.w0))
       = [EvFilesGet {| get_fileId := Some "Y"; get_fields := None |};
          EvMedia (GetMedia "Y")]).
Proof.
  split.
  - destruct (export_mapping Scenario.tree_build Scenario.reader_with_config
                "X" "/tmp/X" Scenario.w0 Scenario.item_X Scenario.google_doc
                eq_refl eq_refl eq_refl) as (Htrace & _ & Hreturns).
    split; [|exact Htrace].
    refine (proj1 (Hreturns _ eq_refl _ eq_refl)).
    vm_compute. set_solver.
  - destruct (export_mapping Scenario.tree_build Scenario.reader_with_config
                "Y" "/tmp/Y" Scenario.w0 Scenario.item_Y Scenario.plain
                eq_refl eq_refl eq_refl) as (Htrace & _ & Hreturns).
    split; [|exact Htrace].
    refine (proj1 (Hreturns _ eq_refl _ eq_refl)).
    vm_compute. set_solver.
Defined.

(** ** Assembly *)

Section AssemblyFacts.

Context (build : option Credentials -> DriveService) (reader : DirectoryReader).

(** [_download_file] always returns; it leaves the directories, the list
    objects and the temporary-name counter alone. *)
Lemma download_file_returns (self : GoogleDriveReader) fileid filename w :
  ∃ r w', _download_file build self fileid filename w = (Returned r, w')
          ∧ dirs w' = dirs w ∧ heap w' = heap w.
Proof.
  unfold _download_file, try_log, download_file_body. run.
  destruct (files_get _ _) as [file|e]; simpl; [|eauto].
  destruct (item_mimeType file) as [mime|]; simpl; [|eauto].
  destruct (download_plan self mime fileid filename) as [path request]. simpl.
  destruct (media_chunks _ request) as [chunks|e]; simpl; [|eauto].
  unfold Fs.write. simpl.
  destruct (bool_decide _); simpl; [eauto|].
  destruct (Fs.parent_exists _ _); simpl; eauto.
Qed.

(** The download loop always returns, and every entry it adds to the
    metadata dictionary is the metadata object of one of the files it was
    given. *)
Lemma stage_loop_returns (self : GoogleDriveReader) temp_dir xs acc w :
  ∃ md w', for_each (stage_file build self temp_dir) xs acc w = (Returned md, w')
           ∧ dirs w' = dirs w ∧ heap w' = heap w
           ∧ ∀ k entry, md !! k = Some entry →
               acc !! k = Some entry ∨ ∃ m, m ∈ xs ∧ entry = metadata_of m.
Proof.
  revert acc w. induction xs as [|x xs IH]; intros acc w; simpl.
  - exists acc, w. repeat split; auto.
  - unfold stage_file at 1.
    destruct (download_file_returns self (fm_id x) (Fs.join temp_dir (fm_id x)) w)
      as (r & w1 & Heq & Hdirs & Hheap).
    unfold bind at 1. unfold bind at 1. rewrite Heq. simpl.
    destruct (IH (<[r := metadata_of x]> acc) w1) as (md & w' & Hloop & Hd & Hh & Hmd).
    exists md, w'. rewrite Hloop. split; [done|].
    split; [congruence|]. split; [congruence|].
    intros k entry Hk. destruct (Hmd k entry Hk) as [Hacc|(m & Hin & ->)].
    + rewrite lookup_insert in Hacc. case_decide.
      * right. exists x. split; [left|]. congruence.
      * by left.
    + right. exists m. split; [by right|done].
Qed.

(** The block of the [with] statement returns or raises, and the directory
    set is the one it started with. *)
Lemma stage_and_load_completes (self : GoogleDriveReader) fileids_meta temp_dir w :
  ∃ w', dirs w' = dirs w ∧ heap w' = heap w
        ∧ ((∃ docs, stage_and_load build reader self fileids_meta temp_dir w
                    = (Returned docs, w'))
           ∨ (∃ e, stage_and_load build reader self fileids_meta temp_dir w
                   = (Raised e, w'))).
Proof.
  unfold stage_and_load. destruct fileids_meta as [metas|]; simpl.
  - rewrite bind_ret_l.
    destruct (stage_loop_returns self temp_dir metas ∅ w)
      as (md & w' & Hloop & Hd & Hh & _).
    exists w'. split; [done|]. split; [done|].
    rewrite (bind_returned _ _ _ _ _ Hloop). unfold bind.
    destruct (load_directory reader temp_dir (files w') (get_metadata md));
      simpl; eauto.
  - exists w. eauto.
Qed.

Lemma rmtree_removes d w :
  let w' := snd (TempDir.rmtree d w) in
  (d ∉ dirs w') ∧ files w' !! d = None
  ∧ ∀ p, Fs.under d p = true → (p ∉ dirs w') ∧ files w' !! p = None.
Proof.
  simpl. split; [|split].
  - intros Hin. apply elem_of_filter in Hin as [[Hne _] _]. done.
  - apply map_lookup_filter_None. right. intros x _ [Hne _]. done.
  - intros p Hunder. split.
    + intros Hin. apply elem_of_filter in Hin as [[_ Hout] _]. congruence.
    + apply map_lookup_filter_None. right. intros x _ [_ Hout]. simpl in Hout.
      congruence.
Qed.

Lemma scoped_returned {A} (body : string -> M A) w d w1 a w2 :
  TempDir.mkdtemp w = (Returned d, w1) →
  body d w1 = (Returned a, w2) →
  TempDir.scoped body w = (Returned a, snd (TempDir.rmtree d w2)).
Proof.
  intros Hmk Hbody. unfold TempDir.scoped.
  rewrite (bind_returned _ _ _ _ _ Hmk). by rewrite Hbody.
Qed.

Lemma scoped_raised {A} (body : string -> M A) w d w1 e w2 :
  TempDir.mkdtemp w = (Returned d, w1) →
  body d w1 = (Raised e, w2) →
  TempDir.scoped body w = (Raised e, snd (TempDir.rmtree d w2)).
Proof.
  intros Hmk Hbody. unfold TempDir.scoped.
  rewrite (bind_returned _ _ _ _ _ Hmk). by rewrite Hbody.
Qed.

(** C9.  Once [mkdtemp] has handed out the scratch directory [d], an
    invocation of [_load_data_fileids_meta] always completes (it returns, with
    documents or with [None] after a failure of the download loop or of the
    directory reader), and in the world it leaves [d] is no longer a
    directory and nothing exists at or under it. *)
Theorem scratch_directory_removed (self : GoogleDriveReader)
    (fileids_meta : option (list FileMeta)) (w : World) (d : string) (w1 : World) :
  TempDir.mkdtemp w = (Returned d, w1) →
  let r := _load_data_fileids_meta build reader self fileids_meta w in
  (∃ result, fst r = Returned result)
  ∧ (d ∉ dirs (snd r))
  ∧ files (snd r) !! d = None
  ∧ ∀ p, Fs.under d p = true → (p ∉ dirs (snd r)) ∧ files (snd r) !! p = None.
Proof.
  intros Hmk. cbv zeta.
  unfold _load_data_fileids_meta, load_data_fileids_meta_body.
  pose proof (rmtree_removes d) as Hrm.
  destruct (stage_and_load_completes self fileids_meta d w1)
    as (w2 & _ & _ & [[docs Heq]|[e Heq]]).
  - erewrite try_log_returned
      by (erewrite bind_returned by (eapply scoped_returned; eauto); reflexivity).
    split; [eauto|]. apply Hrm.
  - erewrite try_log_catches
      by (eapply bind_raised, scoped_raised; eauto).
    split; [eauto|]. apply Hrm.
Qed.

Lemma scoped_inv {A} (body : string -> M A) w a w' :
  TempDir.scoped body w = (Returned a, w') →
  ∃ d w1 w2, TempDir.mkdtemp w = (Returned d, w1) ∧ body d w1 = (Returned a, w2).
Proof.
  unfold TempDir.scoped, bind.
  destruct (TempDir.mkdtemp w) as [[d| |] w1]; try done.
  destruct (body d w1) as [[b| |] w2] eqn:Hbody; simpl; try done.
  intros [= <- <-]. eauto.
Qed.

Lemma metadata_of_file_id (m : FileMeta) : metadata_of m !! "file id" = Some (fm_id m).
Proof. unfold metadata_of. apply lookup_insert_eq. Qed.

(** Under the contract of the directory reader, every document that leaves
    the [with] block has the identifier of one of the tuples staged. *)
Lemma stage_and_load_ids (self : GoogleDriveReader) metas temp_dir w docs w' :
  reader_contract reader →
  stage_and_load build reader self (Some metas) temp_dir w = (Returned docs, w') →
  Forall (fun doc => ∃ m, m ∈ metas ∧ id_ doc = fm_id m) docs.
Proof.
  intros Hcontract. unfold stage_and_load. simpl. rewrite bind_ret_l.
  destruct (stage_loop_returns self temp_dir metas ∅ w)
    as (md & w1 & Hloop & _ & _ & Hmd).
  rewrite (bind_returned _ _ _ _ _ Hloop). unfold bind.
  destruct (load_directory reader temp_dir (files w1) (get_metadata md))
    as [docs0|e] eqn:Hload; simpl; [|done].
  intros [= <- <-].
  apply Hcontract in Hload. apply Forall_fmap.
  eapply Forall_impl; [exact Hload|].
  intros doc (path & entry & Hcb & Hid). simpl.
  unfold get_metadata in Hcb.
  destruct (md !! Some path) as [entry'|] eqn:Hlook; [|done].
  injection Hcb as ->.
  destruct (Hmd _ _ Hlook) as [Hempty|(m & Hin & ->)].
  - by rewrite lookup_empty in Hempty.
  - exists m. split; [done|].
    by rewrite Hid, metadata_of_file_id.
Qed.

Lemma same_id_same_meta (metas : list FileMeta) m1 m2 :
  NoDup (fm_id <$> metas) → m1 ∈ metas → m2 ∈ metas → fm_id m1 = fm_id m2 → m1 = m2.
Proof.
  induction metas as [|m metas IH]; simpl; intros Hnd H1 H2 Heq.
  - by apply elem_of_nil in H1.
  - apply NoDup_cons in Hnd as [Hnotin Hnd].
    apply elem_of_cons in H1 as [->|H1]; apply elem_of_cons in H2 as [->|H2].
    + done.
    + exfalso. apply Hnotin. rewrite Heq. by apply list_elem_of_fmap_2.
    + exfalso. apply Hnotin. rewrite <- Heq. by apply list_elem_of_fmap_2.
    + by apply IH.
Qed.

(** C6 (amended).  Under the contract of the directory reader, every document
    that [_load_data_fileids_meta] returns has the identifier of a tuple that
    was supplied, so no document is produced for a file id outside the input;
    and when the supplied tuples have pairwise distinct identifiers that tuple
    is the only one. *)
Theorem document_ids_come_from_input (self : GoogleDriveReader)
    (metas : list FileMeta) (w : World) (docs : list Document) (w' : World) :
  reader_contract reader →
  _load_data_fileids_meta build reader self (Some metas) w = (Returned (Some docs), w') →
  Forall (fun doc =>
            (∃ m, m ∈ metas ∧ id_ doc = fm_id m)
            ∧ (NoDup (fm_id <$> metas) → exists ! m, m ∈ metas ∧ id_ doc = fm_id m))
         docs.
Proof.
  intros Hcontract Hrun.
  apply try_log_inv in Hrun as [Hbody|(e & w1 & _ & [=] & _)].
  unfold load_data_fileids_meta_body, bind in Hbody.
  destruct (TempDir.scoped _ w) as [[docs0| |] w1] eqn:Hscoped; try done.
  injection Hbody as <- <-.
  apply scoped_inv in Hscoped as (d & w2 & w3 & _ & Hstage).
  apply stage_and_load_ids in Hstage; [|done].
  eapply Forall_impl; [exact Hstage|].
  intros doc (m & Hin & Hid). split; [eauto|].
  intros Hnd. exists m. split; [done|].
  intros m' [Hin' Hid']. eapply same_id_same_meta; eauto. congruence.
Qed.

End AssemblyFacts.

Lemma collect_contract (cb : string → result (gmap string string)) entries docs :
  Scenario.collect (Scenario.document_of cb) entries = Ok docs →
  Forall (fun doc => ∃ path md, cb path = Ok md
                                ∧ metadata doc !! "file id" = md !! "file id") docs.
Proof.
  revert docs. induction entries as [|entry entries IH]; simpl; intros docs.
  - intros [= <-]. constructor.
  - unfold Scenario.document_of at 1.
    destruct (cb entry.1) as [md|e] eqn:Hcb; [|done].
    destruct (Scenario.collect _ entries) as [rest|e]; [|done].
    intros [= <-]. constructor; [|by apply IH].
    exists entry.1, md. by split.
Qed.

(** The concrete directory reader keeps the contract. *)
Lemma dir_reader_contract : reader_contract Scenario.dir_reader.
Proof.
  intros dir fs cb docs. simpl.
  destruct (filter _ (map_to_list fs)) as [|entry entries]; [done|].
  apply (collect_contract cb (entry :: entries)).
Qed.

(** Staging the Google document [X] and the text file [Y] yields one
    document for each, carrying its identifier, and the scratch directory
    [/tmp/tmp0] is gone afterwards. *)
Lemma document_ids_come_from_input_witness :
  ∃ docs w',
    _load_data_fileids_meta Scenario.tree_build Scenario.dir_reader
      Scenario.reader_with_config (Some [Scenario.meta_X; Scenario.meta_Y]) Scenario.w0
    = (Returned (Some docs), w')
    ∧ (fun doc => (id_ doc, text doc)) <$> docs = [("Y", "raw:Y"); ("X", "exported:X")]
    ∧ Forall (fun doc =>
                (∃ m, m ∈ [Scenario.meta_X; Scenario.meta_Y] ∧ id_ doc = fm_id m)
                ∧ (NoDup (fm_id <$> [Scenario.meta_X; Scenario.meta_Y]) →
                   exists ! m, m ∈ [Scenario.meta_X; Scenario.meta_Y] ∧ id_ doc = fm_id m))
             docs.
Proof.
  destruct (_load_data_fileids_meta Scenario.tree_build Scenario.dir_reader
              Scenario.reader_with_config (Some [Scenario.meta_X; Scenario.meta_Y])
              Scenario.w0) as [o w'] eqn:Hrun.
  assert (∃ docs, o = Returned (Some docs)
                  ∧ (fun doc => (id_ doc, text doc)) <$> docs
                    = [("Y", "raw:Y"); ("X", "exported:X")]) as (docs & -> & Hdocs).
  { apply (f_equal fst) in Hrun. simpl in Hrun. subst o.
    eexists. split; reflexivity. }
  exists docs, w'. split; [done|]. split; [done|].
  exact (document_ids_come_from_input Scenario.tree_build Scenario.dir_reader
           Scenario.reader_with_config _ _ _ _ dir_reader_contract Hrun).
Defined.

(** C6, as stated, fails: two supplied tuples share the identifier ["Y"].
    The one document that is returned has that identifier, which is the
    [FileMeta.id] of both tuples and not of exactly one. *)
Lemma shared_identifier_has_two_sources :
  ¬ (∀ (build : option Credentials → DriveService) (reader : DirectoryReader)
       (self : GoogleDriveReader) (metas : list FileMeta) (w : World)
       (docs : list Document) (w' : World),
       reader_contract reader →
       _load_data_fileids_meta build reader self (Some metas) w
       = (Returned (Some docs), w') →
       Forall (fun doc => exists ! m, m ∈ metas ∧ id_ doc = fm_id m) docs).
Proof.
  intros Hclaim.
  destruct (_load_data_fileids_meta Scenario.tree_build Scenario.dir_reader
              Scenario.reader_with_config (Some [Scenario.meta_Y; Scenario.meta_Y'])
              Scenario.w0) as [o w'] eqn:Hrun.
  assert (∃ doc, o = Returned (Some [doc]) ∧ id_ doc = "Y") as (doc & -> & Hid).
  { apply (f_equal fst) in Hrun. simpl in Hrun. subst o.
    eexists. split; reflexivity. }
  apply Hclaim in Hrun; [|exact dir_reader_contract].
  apply Forall_cons in Hrun as [(m & _ & Hunique) _].
  assert (m = Scenario.meta_Y) as Hm1.
  { apply Hunique. split; [by left|by rewrite Hid]. }
  assert (m = Scenario.meta_Y') as Hm2.
  { apply Hunique. split; [right; by left|by rewrite Hid]. }
  rewrite Hm1 in Hm2. discriminate Hm2.
Qed.

(** With the scratch directory [/tmp/tmp0] handed out, the assembly of [X]
    and [Y] returns and leaves neither the directory nor the staged files. *)
Lemma scratch_directory_removed_witness :
  (∃ result,
     fst (_load_data_fileids_meta Scenario.tree_build Scenario.dir_reader
            Scenario.reader_with_config (Some [Scenario.meta_X; Scenario.meta_Y])
            Scenario.w0) = Returned result)
  ∧ ("/tmp/tmp0" ∉ dirs (snd (_load_data_fileids_meta Scenario.tree_build
        Scenario.dir_reader Scenario.reader_with_config
        (Some [Scenario.meta_X; Scenario.meta_Y]) Scenario.w0)))
  ∧ files (snd (_load_data_fileids_meta Scenario.tree_build
        Scenario.dir_reader Scenario.reader_with_config
        (Some [Scenario.meta_X; Scenario.meta_Y]) Scenario.w0)) !! "/tmp/tmp0/X.docx"
    = None.
Proof.
  destruct (scratch_directory_removed Scenario.tree_build Scenario.dir_reader
              Scenario.reader_with_config (Some [Scenario.meta_X; Scenario.meta_Y])
              Scenario.w0 "/tmp/tmp0" _ eq_refl) as (Hret & Hdir & _ & Hunder).
  split; [exact Hret|]. split; [exact Hdir|].
  exact (proj2 (Hunder "/tmp/tmp0/X.docx" eq_refl)).
Defined.

(** ** Frame properties: the list objects *)

Lemma heap_frame_ret {A} Q (a : A) : heap_frame Q (ret a).
Proof. by intros w _. Qed.

Lemma heap_frame_raise {A} Q e : heap_frame Q (@raise A e).
Proof. by intros w _. Qed.

Lemma heap_frame_out_of_fuel {A} Q : heap_frame Q (@out_of_fuel A).
Proof. by intros w _. Qed.

Lemma heap_frame_lift {A} Q (r : result A) : heap_frame Q (lift r).
Proof. destruct r; by intros w _. Qed.

Lemma heap_frame_emit Q ev : heap_frame Q (emit ev).
Proof. by intros w _. Qed.

Lemma heap_frame_subscript {A} Q key (field : option A) :
  heap_frame Q (subscript key field).
Proof. destruct field; by intros w _. Qed.

Lemma heap_frame_bind {A B} Q (m : M A) (k : A → M B) :
  heap_frame Q m → (∀ a, heap_frame Q (k a)) → heap_frame Q (bind m k).
Proof.
  intros Hm Hk w HQ. unfold bind.
  pose proof (Hm w HQ) as Hw.
  destruct (m w) as [[a|e|] w1]; simpl in *; [|done|done].
  rewrite <- Hw. apply Hk. by rewrite Hw.
Qed.

Lemma heap_frame_try_log {A} Q msg (body : M (option A)) :
  heap_frame Q body → heap_frame Q (try_log msg body).
Proof.
  intros Hbody w HQ. unfold try_log.
  pose proof (Hbody w HQ) as Hw.
  by destruct (body w) as [[a|e|] w1].
Qed.

Lemma heap_frame_for_each {A B} Q (step : B → A → M B) xs acc :
  (∀ acc x, heap_frame Q (step acc x)) → heap_frame Q (for_each step xs acc).
Proof.
  intros Hstep. revert acc. induction xs as [|x xs IH]; intros acc; simpl.
  - apply heap_frame_ret.
  - apply heap_frame_bind; [apply Hstep|]. intros acc'. apply IH.
Qed.

Lemma heap_frame_weaken {A} (Q Q' : gmap nat (list string) → Prop) (m : M A) :
  (∀ h, Q' h → Q h) → heap_frame Q m → heap_frame Q' m.
Proof. intros HQ Hm w Hw. apply Hm, HQ, Hw. Qed.

Create HintDb frame discriminated.
#[local] Hint Resolve heap_frame_ret heap_frame_raise heap_frame_out_of_fuel
  heap_frame_lift heap_frame_emit heap_frame_subscript : frame.

Ltac frame :=
  repeat first
    [ apply heap_frame_bind; [|intros ?]
    | apply heap_frame_try_log
    | solve [auto with frame]
    | match goal with
      | |- heap_frame _ (match ?x with _ => _ end) => destruct x
      | |- heap_frame _ (if ?b then _ else _) => destruct b
      end ].

Lemma heap_frame_author_of Q item : heap_frame Q (author_of item).
Proof. unfold author_of. frame. Qed.

Lemma heap_frame_file_meta_of Q item : heap_frame Q (file_meta_of item).
Proof. unfold file_meta_of. frame. apply heap_frame_author_of. Qed.

Lemma heap_frame_extend {A} Q (acc : list A) r : heap_frame Q (extend acc r).
Proof. unfold extend. frame. Qed.

Lemma heap_frame_list_pages Q fuel service req items :
  heap_frame Q (list_pages fuel service req items).
Proof.
  revert items. induction fuel as [|fuel IH]; intros items; simpl; frame; apply IH.
Qed.

Lemma heap_frame_fs_write Q path data : heap_frame Q (Fs.write path data).
Proof.
  intros w _. unfold Fs.write.
  destruct (bool_decide _); [done|]. by destruct (Fs.parent_exists _ _).
Qed.

#[local] Hint Resolve heap_frame_author_of heap_frame_file_meta_of
  heap_frame_extend heap_frame_list_pages heap_frame_fs_write : frame.

Lemma heap_frame_get_credentials Q auth self :
  heap_frame Q (_get_credentials auth self).
Proof.
  unfold _get_credentials, renew_and_save, consent_flow. frame.
Qed.

Lemma heap_frame_download_file Q build self fileid filename :
  heap_frame Q (_download_file build self fileid filename).
Proof.
  unfold _download_file, download_file_body. frame.
Qed.

Lemma mkdtemp_cases w :
  (∃ d w1, TempDir.mkdtemp w = (Returned d, w1) ∧ heap w1 = heap w)
  ∨ (∃ e w1, TempDir.mkdtemp w = (Raised e, w1) ∧ heap w1 = heap w
             ∧ files w1 = files w ∧ dirs w1 = dirs w ∧ trace w1 = trace w).
Proof.
  unfold TempDir.mkdtemp. destruct (_ || _); [right|left]; eauto 10.
Qed.

Lemma heap_frame_load_data_fileids_meta Q build reader self fileids_meta :
  heap_frame Q (_load_data_fileids_meta build reader self fileids_meta).
Proof.
  intros w _. unfold _load_data_fileids_meta, load_data_fileids_meta_body.
  destruct (mkdtemp_cases w) as [(d & w1 & Hmk & Hw1)|(e & w1 & Hmk & Hw1 & _)].
  - destruct (stage_and_load_completes build reader self fileids_meta d w1)
      as (w2 & _ & Hheap & [[docs Heq]|[e Heq]]).
    + erewrite try_log_returned
        by (erewrite bind_returned by (eapply scoped_returned; eauto); reflexivity).
      simpl. congruence.
    + erewrite try_log_catches by (eapply bind_raised, scoped_raised; eauto).
      simpl. congruence.
  - erewrite try_log_catches
      by (eapply bind_raised; unfold TempDir.scoped; eapply bind_raised; eauto).
    simpl. congruence.
Qed.

(** ** The caller's filter list *)

Section FilterListFacts.

Context (build : option Credentials → DriveService).

Lemma heap_frame_add_mime_filter mime_types query :
  heap_frame (settled mime_types) (add_mime_filter mime_types query).
Proof.
  intros w Hs. unfold add_mime_filter, settled in *.
  destruct mime_types as [l|]; [|done].
  unfold bind, deref at 1. simpl.
  destruct (default [] (heap w !! l)) as [|mt mts] eqn:Hl; [done|].
  rewrite bool_decide_eq_true_2 by done. done.
Qed.

(** Once the list is settled, enumeration leaves the heap alone. *)
Lemma heap_frame_get_fileids_meta fuel self drive_id folder_id file_id mime_types
    query_string :
  heap_frame (settled mime_types)
    (_get_fileids_meta build fuel self drive_id folder_id file_id mime_types
       query_string).
Proof.
  revert drive_id folder_id file_id.
  induction fuel as [|fuel IH]; intros drive_id folder_id file_id; simpl.
  - apply heap_frame_out_of_fuel.
  - apply heap_frame_try_log. unfold get_fileids_meta_body.
    destruct (truthy_str folder_id).
    + apply heap_frame_bind; [apply heap_frame_add_mime_filter|]. intros query.
      apply heap_frame_bind; [auto with frame|]. intros items.
      apply heap_frame_bind; [|auto with frame].
      apply heap_frame_for_each. intros acc item. unfold visit_item. frame.
    + frame.
Qed.

(** The first thing a folder-mode call does with a non-empty list that lacks
    the folder type is to append it. *)
Lemma add_mime_filter_appends l query w mts :
  heap w !! l = Some mts → mts ≠ [] → folder_mime_type ∉ mts →
  ∃ query' w1,
    add_mime_filter (Some l) query w = (Returned query', w1)
    ∧ heap w1 = <[l := mts ++ [folder_mime_type]]> (heap w).
Proof.
  intros Hl Hne Hnotin. unfold add_mime_filter, bind, deref at 1. simpl.
  rewrite Hl. simpl. destruct mts as [|mt mts]; [done|].
  rewrite bool_decide_eq_false_2 by done. simpl.
  unfold list_append. simpl. rewrite Hl. simpl. eauto.
Qed.

Lemma settled_after_append l (mts : list string) h :
  settled (Some l) (<[l := mts ++ [folder_mime_type]]> h).
Proof.
  unfold settled. rewrite lookup_insert_eq. simpl.
  destruct (mts ++ [folder_mime_type]) eqn:Happ; [done|].
  rewrite <- Happ. apply elem_of_app. right. by left.
Qed.

Lemma try_log_heap {A} msg (body : M (option A)) w :
  heap (snd (try_log msg body w)) = heap (snd (body w)).
Proof. unfold try_log. by destruct (body w) as [[?|?|] ?]. Qed.

Lemma folder_mode_appends fuel self drive_id folder_id file_id l query_string w mts :
  truthy_str folder_id = true →
  heap w !! l = Some mts → mts ≠ [] → folder_mime_type ∉ mts →
  heap (snd (_get_fileids_meta build (S fuel) self drive_id folder_id file_id
               (Some l) query_string w))
  = <[l := mts ++ [folder_mime_type]]> (heap w).
Proof.
  intros Hfolder Hl Hne Hnotin. simpl. rewrite try_log_heap.
  destruct (add_mime_filter_appends l
              ("('" +:+ default "" folder_id +:+ "' in parents)") w mts Hl Hne Hnotin)
    as (query' & w1 & Hfilter & Hheap).
  unfold get_fileids_meta_body. rewrite Hfolder.
  rewrite (bind_returned _ _ _ _ _ Hfilter). rewrite <- Hheap.
  assert (settled (Some l) (heap w1)) as Hsettled
    by (rewrite Hheap; apply settled_after_append).
  revert Hsettled. generalize w1. change (heap_frame (settled (Some l))
    (items <- list_pages fuel (build (_creds self))
                (list_request drive_id (add_query_string query_string query')) [] ;;
     fileids_meta <-
       for_each (visit_item (_get_fileids_meta build fuel self) drive_id (Some l)
                   query_string) items [] ;;
     ret (Some fileids_meta))).
  apply heap_frame_bind; [auto with frame|]. intros items.
  apply heap_frame_bind; [|auto with frame].
  apply heap_frame_for_each. intros acc item. unfold visit_item. frame.
  apply heap_frame_get_fileids_meta.
Qed.

Lemma bind_heap_frame {A B} (m : M A) (k : A → M B) w :
  (∀ a, heap_frame (fun _ => True) (k a)) →
  heap (snd (bind m k w)) = heap (snd (m w)).
Proof.
  intros Hk. unfold bind. destruct (m w) as [[a|e|] w1]; simpl; [|done|done].
  by apply Hk.
Qed.

(** C10.  A folder-mode call of [_get_fileids_meta] that is given a
    non-empty filter list without the folder MIME type leaves the caller's
    list object with that type appended, whatever else the call does (return,
    fail, or still be running); every other list object is untouched.  The
    same holds after [load_data] in folder mode, once the credential has been
    resolved. *)
Theorem caller_filter_list_is_mutated (auth : AuthLib) (reader : DirectoryReader)
    (fuel : nat) (self : GoogleDriveReader) (drive_id folder_id file_id : option string)
    (file_ids : option (list string)) (l : nat) (query_string : option string)
    (w : World) (mts : list string) :
  truthy_str folder_id = true →
  heap w !! l = Some mts → mts ≠ [] → folder_mime_type ∉ mts →
  heap (snd (_get_fileids_meta build (S fuel) self drive_id folder_id file_id
               (Some l) query_string w))
  = <[l := mts ++ ["application/vnd.google-apps.folder"]]> (heap w)
  ∧ (∀ creds w1,
       _get_credentials auth self w = (Returned creds, w1) →
       heap (snd (load_data auth build reader (S fuel) self drive_id folder_id
                    file_ids (Some l) query_string w))
       = <[l := mts ++ ["application/vnd.google-apps.folder"]]> (heap w)).
Proof.
  intros Hfolder Hl Hne Hnotin. split.
  - by apply folder_mode_appends.
  - intros creds w1 Hcreds. unfold load_data.
    rewrite (bind_returned _ _ _ _ _ Hcreds). rewrite Hfolder.
    unfold _load_from_folder. rewrite try_log_heap.
    rewrite bind_heap_frame
      by (intros a; apply heap_frame_load_data_fileids_meta).
    assert (heap w1 = heap w) as Hw1.
    { pose proof (heap_frame_get_credentials (fun _ => True) auth self w I) as H.
      by rewrite Hcreds in H. }
    rewrite <- Hw1. apply folder_mode_appends; [done| |done|done].
    by rewrite Hw1.
Qed.

End FilterListFacts.

(** The caller passes [["application/pdf"]] for folder ["F"]: afterwards the
    caller's list reads [["application/pdf";
    "application/vnd.google-apps.folder"]]. *)
Lemma caller_filter_list_is_mutated_witness :
  heap (snd (_get_fileids_meta Scenario.tree_build 3 Scenario.reader_with_config
               None (Some "F") None (Some 0) None Scenario.w_filter)) !! 0
  = Some ["application/pdf"; "application/vnd.google-apps.folder"]
  ∧ heap (snd (load_data Scenario.auth Scenario.tree_build Scenario.dir_reader 3
                 Scenario.reader_with_config None (Some "F") None (Some 0) None
                 Scenario.w_filter)) !! 0
    = Some ["application/pdf"; "application/vnd.google-apps.folder"].
Proof.
  assert (folder_mime_type ∉ [Scenario.pdf]) as Hnotin.
  { intros Hin. apply list_elem_of_singleton in Hin. discriminate Hin. }
  destruct (caller_filter_list_is_mutated Scenario.tree_build Scenario.auth
              Scenario.dir_reader 2 Scenario.reader_with_config None (Some "F") None
              None 0 None Scenario.w_filter [Scenario.pdf] eq_refl eq_refl
              ltac:(discriminate) Hnotin) as [Henum Hload].
  split.
  - rewrite Henum. apply lookup_insert_eq.
  - erewrite Hload by reflexivity. apply lookup_insert_eq.
Defined.

(** ** The missing selector *)

Section LoadFacts.

Context (auth : AuthLib) (build : option Credentials → DriveService)
        (reader : DirectoryReader).

(** Credential resolution sends nothing but the token refresh or the consent
    flow. *)
Lemma get_credentials_trace (self : GoogleDriveReader) (w : World) :
  ∃ t, trace (snd (_get_credentials auth self w)) = trace w ++ t
       ∧ Forall auth_event t.
Proof.
  assert (∀ w0 : World, ∃ t, trace w0 = trace w0 ++ t ∧ Forall auth_event t) as Hnil.
  { intros w0. exists []. by rewrite app_nil_r. }
  assert (∀ ev, auth_event ev →
            ∃ t, trace w ++ [ev] = trace w ++ t ∧ Forall auth_event t) as Hone.
  { intros ev Hev. exists [ev]. split; [done|]. by constructor. }
  unfold _get_credentials, renew_and_save, consent_flow.
  destruct (authorized_user_info self) as [info|].
  - run. destruct (from_authorized_user_info auth info SCOPES) as [c|e]; simpl; [|done].
    destruct (valid c); simpl; [done|].
    destruct (expired c && truthy_str (refresh_token c)); simpl.
    + destruct (refresh auth c); simpl; [|apply Hone; by left].
      destruct (truthy (_is_cloud self)); simpl; [apply Hone; by left|].
      write_cases; apply Hone; by left.
    + destruct (run_local_server auth (client_config self) SCOPES); simpl;
        [|apply Hone; by right].
      destruct (truthy (_is_cloud self)); simpl; [apply Hone; by right|].
      write_cases; apply Hone; by right.
  - destruct (service_account_key self) as [key|].
    + run. by destruct (from_service_account_info auth key SCOPES).
    + run. destruct (run_local_server auth (client_config self) SCOPES); simpl;
        [|apply Hone; by right].
      destruct (truthy (_is_cloud self)); simpl; [apply Hone; by right|].
      write_cases; apply Hone; by right.
Qed.

(** C7 (amended).  When [load_data] is given neither a folder id nor file
    ids, the credential is resolved first.  If that succeeds, [load_data]
    logs the warning and returns the empty list; if it raises, the error
    reaches the caller.  Either way no request is made to the Drive file API:
    the only remote interactions are those of credential resolution (the
    token refresh or the consent flow). *)
Theorem missing_selector_warns (fuel : nat) (self : GoogleDriveReader)
    (drive_id folder_id : option string) (file_ids : option (list string))
    (mime_types : option nat) (query_string : option string) (w : World) :
  truthy_str folder_id = false →
  truthy_list file_ids = false →
  let c := _get_credentials auth self w in
  let r := load_data auth build reader fuel self drive_id folder_id file_ids
             mime_types query_string w in
  (∀ creds, fst c = Returned creds →
     r = (Returned (Some []), add_log selector_warning (snd c)))
  ∧ (∀ e, fst c = Raised e → r = (Raised e, snd c))
  ∧ (∃ t, trace (snd r) = trace w ++ t ∧ Forall auth_event t).
Proof.
  intros Hfolder Hfiles. cbv zeta. unfold load_data.
  destruct (get_credentials_trace self w) as (t & Ht & Hauth).
  unfold bind. rewrite Hfolder, Hfiles.
  destruct (_get_credentials auth self w) as [[creds|e|] w1]; simpl in *.
  - split; [by intros ? [= <-]|]. split; [done|]. eauto.
  - split; [done|]. split; [by intros ? [= <-]|]. eauto.
  - split; [done|]. split; [done|]. eauto.
Qed.

End LoadFacts.

(** A reader with a client configuration only: the consent flow runs, then
    the warning is logged and the empty list returned. *)
Lemma missing_selector_warns_witness :
  fst (load_data Scenario.auth Scenario.tree_build Scenario.dir_reader 3
         Scenario.reader_with_config None None None None None Scenario.w0)
  = Returned (Some [])
  ∧ log (snd (load_data Scenario.auth Scenario.tree_build Scenario.dir_reader 3
                Scenario.reader_with_config None None None None None Scenario.w0))
    = [selector_warning]
  ∧ ∃ t, trace (snd (load_data Scenario.auth Scenario.tree_build Scenario.dir_reader 3
                       Scenario.reader_with_config None None None None None
                       Scenario.w0))
         = trace Scenario.w0 ++ t
         ∧ Forall auth_event t.
Proof.
  destruct (missing_selector_warns Scenario.auth Scenario.tree_build
              Scenario.dir_reader 3 Scenario.reader_with_config None None None None
              None Scenario.w0 eq_refl eq_refl) as (Hret & _ & Htrace).
  rewrite (Hret Scenario.consented eq_refl).
  split; [reflexivity|]. split; [reflexivity|].
  rewrite (Hret Scenario.consented eq_refl) in Htrace. exact Htrace.
Defined.

(** C7, as stated, fails: with saved user info whose credential has expired,
    [load_data()] without a selector refreshes the token before it looks at
    the selectors, so a remote call is made. *)
Lemma missing_selector_still_refreshes :
  ¬ (∀ (auth : AuthLib) (build : option Credentials → DriveService)
       (reader : DirectoryReader) (fuel : nat) (self : GoogleDriveReader)
       (drive_id : option string) (mime_types : option nat)
       (query_string : option string) (w : World),
       fst (load_data auth build reader fuel self drive_id None None mime_types
              query_string w) = Returned (Some [])
       ∧ trace (snd (load_data auth build reader fuel self drive_id None None
                       mime_types query_string w)) = trace w).
Proof.
  intros Hclaim.
  destruct (Hclaim Scenario.auth Scenario.tree_build Scenario.dir_reader 3
              Scenario.reader_with_user_info None None None Scenario.w0)
    as [_ Htrace].
  discriminate Htrace.
Qed.

(** ** The MIME filter *)

Lemma subscript_inv {A} key (field : option A) w a w' :
  subscript key field w = (Returned a, w') → field = Some a ∧ w' = w.
Proof. destruct field; simpl; [|done]. by intros [= -> ->]. Qed.

Lemma author_of_inv item w a w' :
  author_of item w = (Returned a, w') → w' = w.
Proof.
  unfold author_of. destruct (item_driveId item); [by intros [= _ ->]|].
  intros H. apply bind_inv in H as (owners & w1 & H1 & H2).
  apply subscript_inv in H1 as [_ ->].
  destruct owners as [|first ?]; [done|].
  by apply subscript_inv in H2 as [_ ->].
Qed.

Lemma file_meta_of_inv item w m w' :
  file_meta_of item w = (Returned m, w') →
  w' = w ∧ item_mimeType item = Some (fm_mimeType m).
Proof.
  unfold file_meta_of. intros H.
  apply bind_inv in H as (author & w1 & Ha & H). apply author_of_inv in Ha as ->.
  apply bind_inv in H as (id & w1 & Hs & H). apply subscript_inv in Hs as [_ ->].
  apply bind_inv in H as (name & w1 & Hs & H). apply subscript_inv in Hs as [_ ->].
  apply bind_inv in H as (mime & w1 & Hs & H). apply subscript_inv in Hs as [Hmime ->].
  apply bind_inv in H as (created & w1 & Hs & H). apply subscript_inv in Hs as [_ ->].
  apply bind_inv in H as (modified & w1 & Hs & H). apply subscript_inv in Hs as [_ ->].
  injection H as <- <-. by split.
Qed.

(** A pagination loop that returned read exactly one page, and that page
    carried no token. *)
Lemma list_pages_inv fuel service req items w items' w' :
  list_pages fuel service req items w = (Returned items', w') →
  ∃ resp, files_list service req = Ok resp
          ∧ nextPageToken resp = None
          ∧ items' = items ++ default [] (resp_files resp)
          ∧ w' = add_event (EvFilesList req) w.
Proof.
  destruct fuel as [|fuel]; simpl; [done|].
  intros H. apply bind_inv in H as ([] & w1 & [= <-] & H).
  apply bind_inv in H as (resp & w1 & Hresp & H).
  destruct (files_list service req) as [resp'|e] eqn:Hlist; simpl in Hresp; [|done].
  injection Hresp as -> <-.
  destruct (nextPageToken resp) as [tok|] eqn:Htok.
  - destruct (list_pages_stuck service fuel req resp tok
                (items ++ default [] (resp_files resp))
                (add_event (EvFilesList req) w) Hlist Htok) as (w2 & Hstuck & _).
    rewrite Hstuck in H. done.
  - injection H as <- <-. eauto.
Qed.

Lemma list_request_norm drive_id query :
  list_request (if truthy_str drive_id then drive_id else None) query
  = list_request drive_id query.
Proof. unfold list_request. by destruct (truthy_str drive_id) eqn:H; [rewrite H|]. Qed.

Lemma folder_request_norm drive_id :
  folder_request (if truthy_str drive_id then drive_id else None)
  = folder_request drive_id.
Proof.
  destruct (truthy_str drive_id) eqn:H; [done|].
  unfold folder_request, list_request. simpl. by rewrite H.
Qed.

Lemma subfolders_listed_app service request_of t1 t2 :
  subfolders_listed service request_of t1 →
  subfolders_listed service request_of t2 →
  subfolders_listed service request_of (t1 ++ t2).
Proof.
  intros H1 H2 parent resp item id Hin Hresp Hitem Hmime Hid.
  apply elem_of_app in Hin as [Hin|Hin]; apply elem_of_app; [left|right]; eauto.
Qed.

Lemma effective_filter_has_folder mts : folder_mime_type ∈ effective_filter mts.
Proof.
  unfold effective_filter. case_bool_decide; [done|].
  apply elem_of_app. right. by left.
Qed.

Lemma effective_filter_idem mts :
  effective_filter (effective_filter mts) = effective_filter mts.
Proof.
  unfold effective_filter at 1.
  by rewrite bool_decide_eq_true_2 by apply effective_filter_has_folder.
Qed.

Lemma effective_filter_nonempty mts : effective_filter mts ≠ [].
Proof.
  pose proof (effective_filter_has_folder mts) as Hin. intros Heq.
  rewrite Heq in Hin. by apply elem_of_nil in Hin.
Qed.

(** A tuple that passes the effective filter and is not a folder passes the
    caller's filter. *)
Lemma passes_effective_filter mts m :
  passes_filter (effective_filter mts) m → passes_filter mts m.
Proof.
  unfold passes_filter, effective_filter. intros [Hin Hne]. split; [|done].
  case_bool_decide; [done|].
  apply elem_of_app in Hin as [Hin|Hin]; [done|].
  by apply list_elem_of_singleton in Hin.
Qed.

(** The MIME clause is built from the caller's list with the folder type in
    it; the list object holds that list afterwards. *)
Lemma add_mime_filter_effective l query w mts :
  heap w !! l = Some mts → mts ≠ [] →
  ∃ w1, add_mime_filter (Some l) query w
        = (Returned (and_mime_query query (effective_filter mts)), w1)
        ∧ heap w1 !! l = Some (effective_filter mts)
        ∧ trace w1 = trace w.
Proof.
  intros Hl Hne. unfold add_mime_filter, effective_filter, bind, deref at 1. simpl.
  rewrite Hl. simpl. destruct mts as [|mt mts]; [done|].
  case_bool_decide; simpl.
  - unfold deref. simpl. rewrite Hl. simpl. eauto.
  - unfold list_append, deref. simpl. rewrite Hl. simpl.
    rewrite lookup_insert_eq. simpl. eexists. split; [reflexivity|].
    simpl. by rewrite lookup_insert_eq.
Qed.

Section MimeFilterFacts.

Context (build : option Credentials → DriveService) (self : GoogleDriveReader)
        (l : nat) (query_string : option string).

Abbreviation service := (build (_creds self)).

Abbreviation filtered_run := (enumeration_outcome service l query_string).

(** The loop over the listed items, given that the recursive calls behave. *)
Lemma filter_loop
    (recur : option string → option string → option string → option nat →
             option string → M (option (list FileMeta)))
    (drive_id : option string) (L : list string) :
  effective_filter L = L →
  (∀ fid w metas w',
     heap w !! l = Some L → truthy_str (Some fid) = true →
     recur (if truthy_str drive_id then drive_id else None) (Some fid) None (Some l)
       query_string w = (Returned (Some metas), w') →
     filtered_run drive_id L fid w metas w') →
  ∀ items acc w metas w',
    Forall (fun item =>
              (∀ mime, item_mimeType item = Some mime → mime ∈ L)
              ∧ (item_mimeType item = Some folder_mime_type →
                 truthy_str (item_id item) = true)) items →
    heap w !! l = Some L →
    for_each (visit_item recur drive_id (Some l) query_string) items acc w
      = (Returned metas, w') →
    heap w' !! l = Some L
    ∧ ∃ new t,
        metas = acc ++ new
        ∧ Forall (passes_filter L) new
        ∧ trace w' = trace w ++ t
        ∧ subfolders_listed service (folder_request drive_id L query_string) t
        ∧ ∀ item id, item ∈ items →
            item_mimeType item = Some folder_mime_type → item_id item = Some id →
            EvFilesList (folder_request drive_id L query_string id) ∈ t.
Proof.
  intros HL Hrecur. induction items as [|item items IH];
    intros acc w metas w' Hitems Hheap Hrun; simpl in Hrun.
  - injection Hrun as <- <-. split; [done|]. exists [], [].
    rewrite !app_nil_r. repeat split; try done.
    + intros ? ? ? ? Hin. by apply elem_of_nil in Hin.
    + intros ? ? Hin. by apply elem_of_nil in Hin.
  - apply Forall_cons in Hitems as [[Hmime Hid] Hitems].
    apply bind_inv in Hrun as (acc1 & w1 & Hstep & Hrest).
    assert (heap w1 !! l = Some L
            ∧ ∃ new1 t1,
                acc1 = acc ++ new1
                ∧ Forall (passes_filter L) new1
                ∧ trace w1 = trace w ++ t1
                ∧ subfolders_listed service (folder_request drive_id L query_string) t1
                ∧ ∀ id, item_mimeType item = Some folder_mime_type →
                        item_id item = Some id →
                        EvFilesList (folder_request drive_id L query_string id) ∈ t1)
      as (Hheap1 & new1 & t1 & -> & Hnew1 & Htrace1 & Hclosed1 & Hlisted1).
    { unfold visit_item in Hstep.
      apply bind_inv in Hstep as (mime & w0 & Hsub & Hstep).
      apply subscript_inv in Hsub as [Hmt ->].
      destruct (String.eqb_spec mime folder_mime_type) as [->|Hnotfolder].
      - apply bind_inv in Hstep as (id & w0 & Hsub & Hstep).
        apply subscript_inv in Hsub as [Hitem_id ->].
        apply bind_inv in Hstep as (sub & w0 & Hcall & Hext).
        destruct sub as [sub|]; [|done]. injection Hext as <- <-.
        assert (truthy_str (Some id) = true) as Htruthy
          by (rewrite <- Hitem_id; by apply Hid).
        destruct (Hrecur id w sub w0 Hheap Htruthy Hcall)
          as (Hheap1 & Hsub & t1 & Htrace1 & Hin1 & Hclosed1).
        rewrite HL in *. split; [done|]. exists sub, t1.
        repeat split; try done.
        intros id' _ Hid'. rewrite Hitem_id in Hid'. by injection Hid' as <-.
      - apply bind_inv in Hstep as (meta & w0 & Hmeta & Hstep).
        apply file_meta_of_inv in Hmeta as [-> Hmeta]. injection Hstep as <- <-.
        split; [done|]. exists [meta], []. rewrite app_nil_r.
        repeat split; try done.
        + constructor; [|constructor]. rewrite Hmt in Hmeta.
          injection Hmeta as ->. split; [by apply Hmime|done].
        + intros ? ? ? ? Hin. by apply elem_of_nil in Hin.
        + intros id Hfolder. rewrite Hmt in Hfolder. by injection Hfolder as ->. }
    destruct (IH _ _ _ _ Hitems Hheap1 Hrest)
      as (Hheap' & new2 & t2 & -> & Hnew2 & Htrace2 & Hclosed2 & Hlisted2).
    split; [done|]. exists (new1 ++ new2), (t1 ++ t2).
    rewrite !app_assoc. repeat split.
    + by apply Forall_app.
    + by rewrite Htrace2, Htrace1.
    + by apply subfolders_listed_app.
    + intros item' id Hin Hfolder Hid'. apply elem_of_app.
      apply elem_of_cons in Hin as [->|Hin]; [left|right]; eauto.
Qed.

Lemma listing_respects_filter_norm drive_id L :
  listing_respects_filter service drive_id L query_string →
  listing_respects_filter service (if truthy_str drive_id then drive_id else None) L
    query_string.
Proof.
  intros H fid resp. unfold folder_request. rewrite list_request_norm. apply H.
Qed.

(** A folder-mode call that returns has applied the filter throughout the
    tree below the folder. *)
Lemma filtered_enumeration (fuel : nat) :
  ∀ drive_id fid file_id w mts metas w',
    heap w !! l = Some mts → mts ≠ [] → truthy_str (Some fid) = true →
    listing_respects_filter service drive_id (effective_filter mts) query_string →
    _get_fileids_meta build fuel self drive_id (Some fid) file_id (Some l)
      query_string w = (Returned (Some metas), w') →
    filtered_run drive_id mts fid w metas w'.
Proof.
  induction fuel as [|fuel IH];
    intros drive_id fid file_id w mts metas w' Hl Hne Htruthy Hrespects Hrun;
    simpl in Hrun; [done|].
  apply try_log_inv in Hrun as [Hrun|(e & w1 & _ & [=] & _)].
  unfold get_fileids_meta_body in Hrun. rewrite Htruthy in Hrun.
  destruct (add_mime_filter_effective l ("('" +:+ fid +:+ "' in parents)") w mts Hl Hne)
    as (w1 & Hfilter & Hheap1 & Htrace1).
  simpl in Hrun. rewrite (bind_returned _ _ _ _ _ Hfilter) in Hrun.
  apply bind_inv in Hrun as (items & w2 & Hpages & Hrun).
  apply list_pages_inv in Hpages as (resp & Hresp & Htok & -> & ->).
  apply bind_inv in Hrun as (found & w3 & Hloop & Hret). injection Hret as <- <-.
  set (L := effective_filter mts) in *.
  change (list_request drive_id _)
    with (folder_request drive_id L query_string fid) in *.
  apply (filter_loop _ drive_id L) in Hloop.
  - destruct Hloop as (Hheap' & new & t & -> & Hnew & Htrace & Hclosed & Hlisted).
    split; [by rewrite effective_filter_idem in * || done|].
    split; [done|].
    exists (EvFilesList (folder_request drive_id L query_string fid) :: t).
    split; [|split].
    + rewrite Htrace. simpl. rewrite Htrace1. by rewrite <- app_assoc.
    + by left.
    + intros parent resp' item id Hin Hresp' Hitem Hmime Hid.
      right. apply elem_of_cons in Hin as [Heq|Hin].
      * injection Heq as Heq. rewrite Heq, Hresp in Hresp'.
        injection Hresp' as <-. eapply Hlisted; eauto.
      * eapply Hclosed; eauto.
  - apply effective_filter_idem.
  - intros fid' w0 metas0 w0' Hl0 Htruthy0 Hcall.
    pose proof (IH (if truthy_str drive_id then drive_id else None) fid' None w0 L
                  metas0 w0' Hl0 (effective_filter_nonempty mts) Htruthy0) as Hsub.
    unfold L in Hsub at 1. rewrite effective_filter_idem in Hsub.
    specialize (Hsub (listing_respects_filter_norm _ _ Hrespects) Hcall).
    unfold enumeration_outcome in *.
    rewrite !folder_request_norm in Hsub. exact Hsub.
  - simpl. by apply Hrespects in Hresp.
  - done.
Qed.

End MimeFilterFacts.


Lemma string_length_append (s1 s2 : string) :
  String.length (s1 +:+ s2) = String.length s1 + String.length s2.
Proof. induction s1 as [|c s1 IH]; simpl; [done|]. by rewrite IH. Qed.

Ltac listed_item_ok :=
  split; [ intros mime [= <-]; set_solver
         | first [ by intros [=] | intros _; reflexivity ] ].

(** The tree provider applies the clause [pdf or folder]. *)
Lemma tree_drive_respects_filter :
  listing_respects_filter Scenario.tree_drive None
    (effective_filter [Scenario.pdf]) None.
Proof.
  intros fid resp. unfold folder_request.
  change (effective_filter [Scenario.pdf]) with [Scenario.pdf; folder_mime_type].
  set (query := add_query_string None _).
  assert (50 < String.length query) as Hlong.
  { unfold query, add_query_string, and_mime_query.
    rewrite !string_length_append. simpl. lia. }
  clearbody query. unfold list_request. simpl.
  destruct (String.eqb_spec query ("('F' in parents)" +:+ Scenario.pdf_or_folder))
    as [_|_].
  { intros [= <-]. simpl. repeat (apply Forall_cons; split; [listed_item_ok|]).
    constructor. }
  destruct (String.eqb_spec query ("('S' in parents)" +:+ Scenario.pdf_or_folder))
    as [_|_].
  { intros [= <-]. simpl. repeat (apply Forall_cons; split; [listed_item_ok|]).
    constructor. }
  destruct (String.eqb_spec query "('F' in parents)") as [Heq|_].
  { rewrite Heq in Hlong. simpl in Hlong. lia. }
  destruct (String.eqb_spec query "('S' in parents)") as [Heq|_].
  { rewrite Heq in Hlong. simpl in Hlong. lia. }
  intros [= <-]. simpl. constructor.
Qed.


(** ** Failures at the boundary of an operation *)

Lemma add_mime_filter_request mime_types query w :
  ∃ w1, add_mime_filter mime_types query w
        = (Returned (match caller_filter mime_types w with
                     | [] => query
                     | mts => and_mime_query query (effective_filter mts)
                     end), w1)
        ∧ log w1 = log w.
Proof.
  destruct mime_types as [l|]; simpl; [|by exists w].
  destruct (heap w !! l) as [mts|] eqn:Hl; simpl.
  - destruct mts as [|mt mts].
    + exists w. unfold add_mime_filter, bind, deref. by rewrite Hl.
    + destruct (add_mime_filter_effective l query w (mt :: mts) Hl) as (w1 & Heq & _);
        [done|].
      exists w1. split; [done|].
      revert Heq. unfold add_mime_filter, bind, deref at 1. rewrite Hl. simpl.
      case_bool_decide; simpl; unfold deref, list_append; simpl; by intros [= _ <-].
  - exists w. unfold add_mime_filter, bind, deref. by rewrite Hl.
Qed.

Lemma list_pages_fails service fuel req e items w :
  files_list service req = Err e →
  list_pages (S fuel) service req items w = (Raised e, add_event (EvFilesList req) w).
Proof. intros Hfail. simpl. unfold bind, emit, lift. by rewrite Hfail. Qed.

Section FailureFacts.

Context (build : option Credentials → DriveService) (reader : DirectoryReader).

Lemma get_fileids_meta_unfold fuel self drive_id folder_id file_id mime_types
    query_string :
  _get_fileids_meta build (S fuel) self drive_id folder_id file_id mime_types
    query_string
  = try_log get_error_msg
      (get_fileids_meta_body build (_get_fileids_meta build fuel self) fuel self
         drive_id folder_id file_id mime_types query_string).
Proof. reflexivity. Qed.

Lemma download_file_log (self : GoogleDriveReader) fileid filename w :
  ∃ r w' earlier, _download_file build self fileid filename w = (Returned r, w')
                  ∧ log w' = log w ++ earlier.
Proof.
  unfold _download_file, try_log, download_file_body. run.
  destruct (files_get _ _) as [file|e]; simpl; [|eauto].
  destruct (item_mimeType file) as [mime|]; simpl; [|eauto].
  destruct (download_plan self mime fileid filename) as [path request]. simpl.
  destruct (media_chunks _ request) as [chunks|e]; simpl; [|eauto].
  unfold Fs.write. simpl.
  destruct (bool_decide _); simpl; [eauto|].
  destruct (Fs.parent_exists _ _); simpl; [|eauto].
  eexists _, _, []. by rewrite app_nil_r.
Qed.

Lemma stage_loop_log (self : GoogleDriveReader) temp_dir xs acc w :
  ∃ md w' earlier,
    for_each (stage_file build self temp_dir) xs acc w = (Returned md, w')
    ∧ log w' = log w ++ earlier.
Proof.
  revert acc w. induction xs as [|x xs IH]; intros acc w; simpl.
  - exists acc, w, []. by rewrite app_nil_r.
  - unfold stage_file at 1.
    destruct (download_file_log self (fm_id x) (Fs.join temp_dir (fm_id x)) w)
      as (r & w1 & l1 & Heq & Hlog).
    unfold bind at 1. unfold bind at 1. rewrite Heq. simpl.
    destruct (IH (<[r := metadata_of x]> acc) w1) as (md & w' & l2 & Hloop & Hlog').
    exists md, w', (l1 ++ l2). rewrite Hloop. split; [done|].
    by rewrite Hlog', Hlog, app_assoc.
Qed.

(** C3.  Remote and IO failures inside enumeration, download and assembly
    do not reach the caller, and each leaves an error record in the log.

    None of the three operations ever raises.  Whenever the [try] block of
    one of them raises [e], the operation returns [None] and the record of
    [e] is the last entry of the log.  In particular, with the log of the
    starting world followed by that one record:
    - enumeration of a folder whose listing request fails with [e], and
      enumeration of a single file whose metadata request fails with [e];
    - a download whose metadata request fails, whose media download fails, or
      whose target file cannot be opened for writing;
    - an assembly for which no scratch directory can be made;
    and an assembly whose directory reader fails with [e] returns [None] with
    the record of [e] last, after the records of the downloads that failed. *)
Theorem failures_are_caught_and_logged
    (fuel : nat) (self : GoogleDriveReader)
    (drive_id folder_id file_id : option string) (mime_types : option nat)
    (query_string : option string) (fileid filename : string)
    (fileids_meta : option (list FileMeta)) (w : World) :
  let service := build (_creds self) in
  let enumerate n :=
    _get_fileids_meta build n self drive_id folder_id file_id mime_types
      query_string w in
  let download := _download_file build self fileid filename w in
  let assemble := _load_data_fileids_meta build reader self fileids_meta w in
  ((∀ e, fst (enumerate fuel) ≠ Raised e)
   ∧ (∀ e w',
        get_fileids_meta_body build (_get_fileids_meta build fuel self) fuel self
          drive_id folder_id file_id mime_types query_string w = (Raised e, w') →
        fst (enumerate (S fuel)) = Returned None
        ∧ log (snd (enumerate (S fuel))) = log w' ++ [error_record get_error_msg e])
   ∧ (∀ fid e,
        folder_id = Some fid → truthy_str folder_id = true →
        files_list service
          (enumeration_request drive_id (caller_filter mime_types w) query_string fid)
          = Err e →
        caught_and_logged get_error_msg e [] w (enumerate (S (S fuel))))
   ∧ (∀ e,
        truthy_str folder_id = false →
        files_get service {| get_fileId := file_id; get_fields := Some "*" |} = Err e →
        caught_and_logged get_error_msg e [] w (enumerate (S fuel))))
  ∧ ((∀ e, fst download ≠ Raised e)
     ∧ (∀ e w',
          download_file_body build self fileid filename w = (Raised e, w') →
          fst download = Returned None
          ∧ log (snd download) = log w' ++ [error_record download_error_msg e])
     ∧ (∀ e,
          files_get service {| get_fileId := Some fileid; get_fields := None |} = Err e →
          caught_and_logged download_error_msg e [] w download)
     ∧ (∀ file mime e,
          files_get service {| get_fileId := Some fileid; get_fields := None |}
            = Ok file →
          item_mimeType file = Some mime →
          media_chunks service (download_plan self mime fileid filename).2 = Err e →
          caught_and_logged download_error_msg e [] w download)
     ∧ (∀ file mime chunks,
          files_get service {| get_fileId := Some fileid; get_fields := None |}
            = Ok file →
          item_mimeType file = Some mime →
          media_chunks service (download_plan self mime fileid filename).2
            = Ok chunks →
          (download_plan self mime fileid filename).1 ∈ dirs w
          ∨ Fs.parent_exists (download_plan self mime fileid filename).1 w = false →
          ∃ msg, caught_and_logged download_error_msg (OSError msg) [] w download))
  ∧ ((∀ e, fst assemble ≠ Raised e)
     ∧ (∀ e w',
          load_data_fileids_meta_body build reader self fileids_meta w = (Raised e, w') →
          fst assemble = Returned None
          ∧ log (snd assemble) = log w' ++ [error_record load_error_msg e])
     ∧ (∀ e w1,
          TempDir.mkdtemp w = (Raised e, w1) →
          caught_and_logged load_error_msg e [] w assemble)
     ∧ (∀ d w1 metas e,
          TempDir.mkdtemp w = (Returned d, w1) →
          fileids_meta = Some metas →
          (∀ fs cb, load_directory reader d fs cb = Err e) →
          ∃ earlier, caught_and_logged load_error_msg e earlier w assemble)).
Proof.
  cbv zeta. unfold caught_and_logged, error_record.
  split; [|split].
  - split; [|split; [|split]].
    + intros e. destruct fuel; [done|]. apply try_log_never_raises.
    + intros e w' H. rewrite get_fileids_meta_unfold.
      by rewrite (try_log_catches _ _ _ _ _ H).
    + intros fid e -> Htruthy Hfail. rewrite get_fileids_meta_unfold.
      unfold try_log, get_fileids_meta_body.
      rewrite Htruthy. cbv beta iota zeta.
      destruct (add_mime_filter_request mime_types ("('" +:+ fid +:+ "' in parents)") w)
        as (w1 & Hquery & Hlog).
      change (default "" (Some fid)) with fid.
      rewrite (bind_returned _ _ _ _ _ Hquery).
      assert (list_request drive_id
                (add_query_string query_string
                   match caller_filter mime_types w with
                   | [] => "('" +:+ fid +:+ "' in parents)"
                   | mts => and_mime_query ("('" +:+ fid +:+ "' in parents)")
                              (effective_filter mts)
                   end)
              = enumeration_request drive_id (caller_filter mime_types w)
                  query_string fid) as ->.
      { unfold enumeration_request, folder_request.
        by destruct (caller_filter mime_types w). }
      rewrite (bind_raised _ _ _ _ _ (list_pages_fails _ fuel _ e [] w1 Hfail)).
      simpl. by rewrite Hlog.
    + intros e Hfalsy Hfail. rewrite get_fileids_meta_unfold.
      unfold try_log, get_fileids_meta_body.
      rewrite Hfalsy. unfold bind, emit, lift. by rewrite Hfail.
  - split; [|split; [|split; [|split]]].
    + intros e. apply try_log_never_raises.
    + intros e w' H. unfold _download_file. by rewrite (try_log_catches _ _ _ _ _ H).
    + intros e Hfail. unfold _download_file, try_log, download_file_body.
      unfold bind, emit, lift. by rewrite Hfail.
    + intros file mime e Hget Hmime Hfail.
      unfold _download_file, try_log, download_file_body.
      unfold bind, emit, lift, subscript. rewrite Hget. simpl. rewrite Hmime. simpl.
      destruct (download_plan self mime fileid filename) as [path request].
      simpl in *. by rewrite Hfail.
    + intros file mime chunks Hget Hmime Hchunks Hopen.
      unfold _download_file, try_log, download_file_body.
      unfold bind, emit, lift, subscript. rewrite Hget. simpl. rewrite Hmime. simpl.
      destruct (download_plan self mime fileid filename) as [path request].
      simpl in *. rewrite Hchunks. simpl. unfold Fs.write, Fs.parent_exists in *.
      simpl. destruct (bool_decide (path ∈ dirs w)) eqn:Hdir; simpl; [by eexists|].
      destruct Hopen as [Hin|Hparent].
      * by apply bool_decide_eq_false in Hdir.
      * rewrite Hparent. simpl. by eexists.
  - split; [|split; [|split]].
    + intros e. apply try_log_never_raises.
    + intros e w' H. unfold _load_data_fileids_meta.
      by rewrite (try_log_catches _ _ _ _ _ H).
    + intros e w1 Hmk.
      assert (load_data_fileids_meta_body build reader self fileids_meta w
              = (Raised e, w1)) as Hbody.
      { unfold load_data_fileids_meta_body.
        apply bind_raised. unfold TempDir.scoped. by apply bind_raised. }
      unfold _load_data_fileids_meta. rewrite (try_log_catches _ _ _ _ _ Hbody).
      simpl. split; [done|]. f_equal.
      revert Hmk. unfold TempDir.mkdtemp. destruct (_ || _); [|done].
      by intros [= _ <-].
    + intros d w1 metas e Hmk -> Hreader.
      destruct (stage_loop_log self d metas ∅ w1) as (md & w2 & earlier & Hloop & Hlog).
      exists earlier.
      assert (stage_and_load build reader self (Some metas) d w1 = (Raised e, w2))
        as Hbody.
      { unfold stage_and_load. simpl. rewrite bind_ret_l.
        rewrite (bind_returned _ _ _ _ _ Hloop). unfold bind. by rewrite Hreader. }
      assert (load_data_fileids_meta_body build reader self (Some metas) w
              = (Raised e, snd (TempDir.rmtree d w2))) as Hraised.
      { unfold load_data_fileids_meta_body.
        apply bind_raised. by apply (scoped_raised _ _ _ w1). }
      unfold _load_data_fileids_meta. rewrite (try_log_catches _ _ _ _ _ Hraised).
      simpl. split; [done|].
      assert (log w1 = log w) as Hlog1.
      { revert Hmk. unfold TempDir.mkdtemp. destruct (_ || _); [done|].
        by intros [= _ <-]. }
      by rewrite Hlog, Hlog1, <- app_assoc.
Qed.

End FailureFacts.

(** A provider that is down, a download that fails, a target directory that
    does not exist, a scratch name that is taken and a reader that cannot
    read: each call returns [None] and the log holds the error record. *)
Lemma failures_are_caught_and_logged_witness :
  caught_and_logged get_error_msg (HttpError "503") [] Scenario.w0
    (_get_fileids_meta Scenario.failing_build 2 Scenario.reader_with_config
       None (Some "F") None None None Scenario.w0)
  ∧ caught_and_logged get_error_msg (HttpError "503") [] Scenario.w_filter
      (_get_fileids_meta Scenario.failing_build 2 Scenario.reader_with_config
         None (Some "F") None (Some 0) None Scenario.w_filter)
  ∧ caught_and_logged get_error_msg (HttpError "503") [] Scenario.w0
      (_get_fileids_meta Scenario.failing_build 1 Scenario.reader_with_config
         None None (Some "A") None None Scenario.w0)
  ∧ caught_and_logged download_error_msg (HttpError "503") [] Scenario.w0
      (_download_file Scenario.failing_build Scenario.reader_with_config "A" "/tmp/A"
         Scenario.w0)
  ∧ caught_and_logged download_error_msg (HttpError "download failed") []
      Scenario.w0
      (_download_file Scenario.media_down_build Scenario.reader_with_config "A"
         "/tmp/A" Scenario.w0)
  ∧ (∃ msg, caught_and_logged download_error_msg (OSError msg) [] Scenario.w0
              (_download_file Scenario.tree_build Scenario.reader_with_config "A"
                 "/nodir/A" Scenario.w0))
  ∧ caught_and_logged load_error_msg (OSError "File exists") [] Scenario.w_taken
      (_load_data_fileids_meta Scenario.tree_build Scenario.dir_reader
         Scenario.reader_with_config (Some [Scenario.meta_Y]) Scenario.w_taken)
  ∧ (∃ earlier,
       caught_and_logged load_error_msg (ValueError "unreadable") earlier Scenario.w0
         (_load_data_fileids_meta Scenario.tree_build Scenario.failing_reader
            Scenario.reader_with_config (Some [Scenario.meta_Y]) Scenario.w0)).
Proof.
  pose proof (failures_are_caught_and_logged Scenario.failing_build
                Scenario.dir_reader 0 Scenario.reader_with_config
                None (Some "F") None None None "A" "/tmp/A" None Scenario.w0)
    as Hdown.
  pose proof (failures_are_caught_and_logged Scenario.failing_build
                Scenario.dir_reader 0 Scenario.reader_with_config
                None (Some "F") None (Some 0) None "A" "/tmp/A" None Scenario.w_filter)
    as Hfiltered.
  pose proof (failures_are_caught_and_logged Scenario.failing_build
                Scenario.dir_reader 0 Scenario.reader_with_config
                None None (Some "A") None None "A" "/tmp/A" None Scenario.w0)
    as Hfile.
  pose proof (failures_are_caught_and_logged Scenario.media_down_build
                Scenario.dir_reader 0 Scenario.reader_with_config
                None None None None None "A" "/tmp/A" None Scenario.w0)
    as Hmedia.
  pose proof (failures_are_caught_and_logged Scenario.tree_build
                Scenario.dir_reader 0 Scenario.reader_with_config
                None None None None None "A" "/nodir/A" None Scenario.w0)
    as Hopen.
  pose proof (failures_are_caught_and_logged Scenario.tree_build
                Scenario.dir_reader 0 Scenario.reader_with_config
                None None None None None "A" "/tmp/A" (Some [Scenario.meta_Y])
                Scenario.w_taken)
    as Htaken.
  pose proof (failures_are_caught_and_logged Scenario.tree_build
                Scenario.failing_reader 0 Scenario.reader_with_config
                None None None None None "A" "/tmp/A" (Some [Scenario.meta_Y])
                Scenario.w0)
    as Hreader.
  cbv zeta in *.
  destruct Hdown as ((_ & _ & Hlist & _) & (_ & _ & Hget & _) & _).
  destruct Hfiltered as ((_ & _ & Hlist' & _) & _).
  destruct Hfile as ((_ & _ & _ & Hlookup) & _).
  destruct Hmedia as (_ & (_ & _ & _ & Hchunks & _) & _).
  destruct Hopen as (_ & (_ & _ & _ & _ & Hwrite) & _).
  destruct Htaken as (_ & _ & (_ & _ & Hmk & _)).
  destruct Hreader as (_ & _ & (_ & _ & _ & Hload)).
  split; [by apply (Hlist "F")|].
  split; [by apply (Hlist' "F")|].
  split; [by apply Hlookup|].
  split; [by apply Hget|].
  split; [by apply (Hchunks Scenario.item_A Scenario.pdf)|].
  split.
  { apply (Hwrite Scenario.item_A Scenario.pdf
             [Scenario.bytes "raw:"; Scenario.bytes "A"]); try reflexivity.
    right. reflexivity. }
  split.
  { apply (Hmk (OSError "File exists")
             (set_tmp_seq 1 Scenario.w_taken)). reflexivity. }
  apply (Hload "/tmp/tmp0" (snd (TempDir.mkdtemp Scenario.w0)) [Scenario.meta_Y]);
    reflexivity.
Defined.

(** * Further properties of the reader *)

(** ** The constructor *)

Section ConstructorFacts.

Context (auth : AuthLib).

(** What [load_if_missing] does, case by case. *)
Lemma load_if_missing_cases (value : option JsonDict) (path : string) (w : World) :
  load_if_missing auth value path w
  = match value with
    | Some _ => (Returned value, w)
    | None =>
        match files w !! path with
        | None => (Returned None, w)
        | Some data =>
            match json_load auth data with
            | Ok parsed => (Returned (Some parsed), w)
            | Err e => (Raised e, w)
            end
        end
    end.
Proof.
  unfold load_if_missing. destruct value as [v|]; [done|].
  unfold bind, Fs.isfile, Fs.read. simpl.
  destruct (files w !! path) as [data|] eqn:Hfile.
  - rewrite bool_decide_eq_true_2 by eauto. rewrite Hfile.
    by destruct (json_load auth data).
  - rewrite bool_decide_eq_false_2; [done|]. by intros [? ?].
Qed.

(** X1.  Without a client configuration and without a service-account key,
    given directly or found on disk, the constructor does not build a reader:
    it raises [ValueError], unless reading the saved token file already
    failed, and it leaves the world as it was. *)
Theorem constructor_requires_a_credential_source (is_cloud : pyval)
    (credentials_path token_path_arg service_account_key_path : string)
    (authorized_user_info_arg : option JsonDict) (w : World) :
  files w !! credentials_path = None →
  files w !! service_account_key_path = None →
  let r := __init__ auth is_cloud credentials_path token_path_arg
             service_account_key_path None authorized_user_info_arg None w in
  snd r = w
  ∧ (fst r = Raised (ValueError "Must specify `client_config` or `service_account_key`.")
     ∨ ∃ data e, authorized_user_info_arg = None
                 ∧ files w !! token_path_arg = Some data
                 ∧ json_load auth data = Err e
                 ∧ fst r = Raised e).
Proof.
  intros Hcfg Hkey. cbv zeta. unfold __init__.
  assert (∀ path, files w !! path = None →
            load_if_missing auth None path w = (Returned None, w)) as Habsent.
  { intros path Hpath. by rewrite load_if_missing_cases, Hpath. }
  rewrite (bind_returned _ _ _ _ _ (Habsent _ Hcfg)).
  pose proof (load_if_missing_cases authorized_user_info_arg token_path_arg w) as H2.
  destruct authorized_user_info_arg as [info|].
  - rewrite (bind_returned _ _ _ _ _ H2).
    rewrite (bind_returned _ _ _ _ _ (Habsent _ Hkey)). simpl. auto.
  - destruct (files w !! token_path_arg) as [data|] eqn:Htoken.
    + destruct (json_load auth data) as [parsed|e] eqn:Hparse.
      * rewrite (bind_returned _ _ _ _ _ H2).
        rewrite (bind_returned _ _ _ _ _ (Habsent _ Hkey)). simpl. auto.
      * rewrite (bind_raised _ _ _ _ _ H2). simpl. split; [done|]. right. eauto 10.
    + rewrite (bind_returned _ _ _ _ _ H2).
      rewrite (bind_returned _ _ _ _ _ (Habsent _ Hkey)). simpl. auto.
Qed.

(** X2.  A reader that the constructor returns: the world is unchanged; a
    credential source given directly is stored as it is, whatever is on disk;
    a source that was not given is the parsed content of its file when the
    file exists and is absent otherwise; a client configuration or a
    service-account key is present; the token path is the one given, no
    credential is cached yet and the export table is installed. *)
Theorem constructed_reader_fields (is_cloud : pyval)
    (credentials_path token_path_arg service_account_key_path : string)
    (client_config_arg authorized_user_info_arg service_account_key_arg :
       option JsonDict)
    (w : World) (self : GoogleDriveReader) (w' : World) :
  __init__ auth is_cloud credentials_path token_path_arg service_account_key_path
    client_config_arg authorized_user_info_arg service_account_key_arg w
    = (Returned self, w') →
  let stored (arg : option JsonDict) (path : string) (field : option JsonDict) :=
    match arg with
    | Some v => field = Some v
    | None =>
        match files w !! path with
        | Some data => ∃ parsed, json_load auth data = Ok parsed ∧ field = Some parsed
        | None => field = None
        end
    end in
  w' = w
  ∧ stored client_config_arg credentials_path (client_config self)
  ∧ stored authorized_user_info_arg token_path_arg (authorized_user_info self)
  ∧ stored service_account_key_arg service_account_key_path (service_account_key self)
  ∧ (is_Some (client_config self) ∨ is_Some (service_account_key self))
  ∧ token_path self = token_path_arg
  ∧ _creds self = None
  ∧ _mimetypes self = mimetypes_table.
Proof.
  intros Hinit. cbv zeta. unfold __init__, bind in Hinit.
  rewrite load_if_missing_cases in Hinit.
  assert (∀ arg path w0 field w1,
            match arg with
            | Some _ => (Returned arg, w0)
            | None =>
                match files w0 !! path with
                | None => (Returned None, w0)
                | Some data =>
                    match json_load auth data with
                    | Ok parsed => (Returned (Some parsed), w0)
                    | Err e => (Raised e, w0)
                    end
                end
            end = (Returned field, w1) →
            w1 = w0
            ∧ match arg with
              | Some v => field = Some v
              | None =>
                  match files w0 !! path with
                  | Some data =>
                      ∃ parsed, json_load auth data = Ok parsed ∧ field = Some parsed
                  | None => field = None
                  end
              end) as Hload.
  { intros arg path w0 field w1. destruct arg as [v|].
    - by intros [= <- <-].
    - destruct (files w0 !! path) as [data|]; [|by intros [= <- <-]].
      destruct (json_load auth data) as [parsed|e]; [|done].
      intros [= <- <-]. eauto. }
  destruct (match client_config_arg with Some _ => _ | None => _ end)
    as [[cc| |] w1] eqn:H1; try done.
  apply Hload in H1 as [-> Hcc].
  rewrite load_if_missing_cases in Hinit.
  destruct (match authorized_user_info_arg with Some _ => _ | None => _ end)
    as [[ui| |] w2] eqn:H2; try done.
  apply Hload in H2 as [-> Hui].
  rewrite load_if_missing_cases in Hinit.
  destruct (match service_account_key_arg with Some _ => _ | None => _ end)
    as [[sk| |] w3] eqn:H3; try done.
  apply Hload in H3 as [-> Hsk].
  destruct cc as [cc|], sk as [sk|]; simpl in Hinit; try done;
    injection Hinit as <- <-; simpl; repeat split; eauto.
Qed.

End ConstructorFacts.

(** On an empty disk and with no argument, construction fails. *)
Lemma constructor_requires_a_credential_source_witness :
  __init__ Scenario.auth (PyBool false) "credentials.json" "token.json"
    "service_account_key.json" None None None Scenario.w0
  = (Raised (ValueError "Must specify `client_config` or `service_account_key`."),
     Scenario.w0).
Proof.
  destruct (constructor_requires_a_credential_source Scenario.auth (PyBool false)
              "credentials.json" "token.json" "service_account_key.json" None
              Scenario.w0 eq_refl eq_refl) as [Hworld Hraise].
  destruct (__init__ Scenario.auth (PyBool false) "credentials.json" "token.json"
              "service_account_key.json" None None None Scenario.w0) as [o w'] eqn:Hrun.
  simpl in Hworld. subst w'. f_equal.
  apply (f_equal fst) in Hrun. simpl in Hrun. by subst o.
Defined.

(** With [credentials.json] and [token.json] on disk and a client
    configuration passed directly, the reader keeps the argument and takes
    the saved user info from the file. *)
Lemma constructed_reader_fields_witness :
  ∃ self,
    __init__ Scenario.auth (PyBool true) "credentials.json" "token.json"
      "service_account_key.json" (Some "{arg-cfg}") None None Disk.w_files
    = (Returned self, Disk.w_files)
    ∧ client_config self = Some "{arg-cfg}"
    ∧ authorized_user_info self = Some "{file-user}"
    ∧ service_account_key self = None.
Proof.
  destruct (__init__ Scenario.auth (PyBool true) "credentials.json" "token.json"
              "service_account_key.json" (Some "{arg-cfg}") None None Disk.w_files)
    as [o w'] eqn:Hrun.
  assert (∃ self, o = Returned self) as [self ->].
  { apply (f_equal fst) in Hrun. simpl in Hrun. subst o. eexists. reflexivity. }
  destruct (constructed_reader_fields Scenario.auth _ _ _ _ _ _ _ _ _ _ Hrun)
    as (-> & Hcc & Hui & Hsk & _).
  exists self. split; [done|]. split; [exact Hcc|].
  simpl in Hui, Hsk. destruct Hui as (parsed & Hparse & Hui).
  injection Hparse as <-. by split.
Defined.

(** ** Enumeration: single files and single pages *)

Lemma bind_emit {B} (ev : Event) (k : unit → M B) w :
  bind (emit ev) k w = k tt (add_event ev w).
Proof. reflexivity. Qed.

Lemma file_meta_of_tuple (item : Item) (m : FileMeta) (w : World) :
  tuple_of item = Some m → file_meta_of item w = (Returned m, w).
Proof.
  unfold tuple_of, author_of_item, file_meta_of, author_of. intros H.
  destruct (item_driveId item);
    [|destruct (item_owners item) as [[|[first|] owners]|]; try done];
    destruct (item_id item), (item_name item), (item_mimeType item),
      (item_createdTime item), (item_modifiedTime item); try done;
    by injection H as <-.
Qed.

Lemma file_meta_of_incomplete (item : Item) (w : World) :
  tuple_of item = None →
  ∃ e, file_meta_of item w = (Raised e, w)
       ∧ (e = IndexError ∨ ∃ key, e = KeyError key).
Proof.
  unfold tuple_of, author_of_item, file_meta_of, author_of. intros H.
  destruct (item_driveId item);
    [|destruct (item_owners item) as [[|[first|] owners]|]];
    try (eexists; split; [reflexivity|]; eauto; fail);
    destruct (item_id item); try (eexists; split; [reflexivity|]; eauto; fail);
    destruct (item_name item); try (eexists; split; [reflexivity|]; eauto; fail);
    destruct (item_mimeType item); try (eexists; split; [reflexivity|]; eauto; fail);
    destruct (item_createdTime item);
    try (eexists; split; [reflexivity|]; eauto; fail);
    destruct (item_modifiedTime item);
    try (eexists; split; [reflexivity|]; eauto; fail);
    done.
Qed.

Section SingleFileFacts.

Context (build : option Credentials → DriveService).

(** X3.  Single-file mode (no folder id): one metadata request with
    [fields="*"] is sent, and for a file that has every key the result is the
    one tuple of that file, with the author ["Shared Drive"] for a file in a
    shared drive and the display name of the first owner otherwise.  The
    drive id, the MIME filter and the query string play no part, and the
    caller's filter list is left alone. *)
Theorem single_file_lookup (fuel : nat) (self : GoogleDriveReader)
    (drive_id folder_id file_id : option string) (mime_types : option nat)
    (query_string : option string) (w : World) (file : Item)
    (id name mime created modified : string) :
  truthy_str folder_id = false →
  files_get (build (_creds self)) {| get_fileId := file_id; get_fields := Some "*" |}
    = Ok file →
  item_id file = Some id → item_name file = Some name →
  item_mimeType file = Some mime →
  item_createdTime file = Some created → item_modifiedTime file = Some modified →
  let r := _get_fileids_meta build (S fuel) self drive_id folder_id file_id
             mime_types query_string w in
  let tuple author :=
    {| fm_id := id; fm_author := author; fm_name := name; fm_mimeType := mime;
       fm_createdTime := created; fm_modifiedTime := modified |} in
  let w' := add_event (EvFilesGet {| get_fileId := file_id; get_fields := Some "*" |}) w in
  (∀ shared, item_driveId file = Some shared →
     r = (Returned (Some [tuple "Shared Drive"]), w'))
  ∧ (∀ owner others, item_driveId file = None →
       item_owners file = Some (Some owner :: others) →
       r = (Returned (Some [tuple owner]), w')).
Proof.
  intros Hfolder Hget Hid Hname Hmime Hcreated Hmodified. cbv zeta.
  assert (∀ m, tuple_of file = Some m →
            _get_fileids_meta build (S fuel) self drive_id folder_id file_id
              mime_types query_string w
            = (Returned (Some [m]),
               add_event (EvFilesGet {| get_fileId := file_id;
                                        get_fields := Some "*" |}) w)) as Hrun.
  { intros m Hm. simpl. apply try_log_returned.
    unfold get_fileids_meta_body. rewrite Hfolder. cbv beta iota zeta.
    rewrite bind_emit. unfold lift. rewrite Hget. rewrite bind_ret_l.
    by rewrite (bind_returned _ _ _ _ _ (file_meta_of_tuple _ _ _ Hm)). }
  split.
  - intros shared Hshared. apply Hrun. unfold tuple_of, author_of_item.
    by rewrite Hshared, Hid, Hname, Hmime, Hcreated, Hmodified.
  - intros owner others Hnone Howners. apply Hrun. unfold tuple_of, author_of_item.
    by rewrite Hnone, Howners, Hid, Hname, Hmime, Hcreated, Hmodified.
Qed.

(** X4.  A file that lacks one of the keys the enumeration reads (for
    instance a file outside a shared drive without an [owners] list) makes
    the single-file lookup return [None]: the [KeyError] or [IndexError] is
    caught and logged, after the one metadata request. *)
Theorem incomplete_file_yields_none (fuel : nat) (self : GoogleDriveReader)
    (drive_id folder_id file_id : option string) (mime_types : option nat)
    (query_string : option string) (w : World) (file : Item) :
  truthy_str folder_id = false →
  files_get (build (_creds self)) {| get_fileId := file_id; get_fields := Some "*" |}
    = Ok file →
  tuple_of file = None →
  ∃ e, (e = IndexError ∨ ∃ key, e = KeyError key)
       ∧ _get_fileids_meta build (S fuel) self drive_id folder_id file_id
           mime_types query_string w
         = (Returned None,
            add_log {| level := ERROR; message := get_error_msg; exc_info := Some e |}
              (add_event (EvFilesGet {| get_fileId := file_id;
                                        get_fields := Some "*" |}) w)).
Proof.
  intros Hfolder Hget Hnone.
  destruct (file_meta_of_incomplete file
              (add_event (EvFilesGet {| get_fileId := file_id;
                                        get_fields := Some "*" |}) w) Hnone)
    as (e & Hmeta & He).
  exists e. split; [done|]. simpl. apply try_log_catches.
  unfold get_fileids_meta_body. rewrite Hfolder. cbv beta iota zeta.
  rewrite bind_emit. unfold lift. rewrite Hget. rewrite bind_ret_l.
  by apply bind_raised.
Qed.

End SingleFileFacts.

(** The shared-drive file [D] is recorded with the author ["Shared Drive"],
    the file [A] with its first owner. *)
Lemma single_file_lookup_witness :
  fst (_get_fileids_meta Shared.build 1 Scenario.reader_with_config None None
         (Some "D") None None Scenario.w0)
  = Returned (Some [{| fm_id := "D"; fm_author := "Shared Drive";
                       fm_name := "plan.pdf"; fm_mimeType := Scenario.pdf;
                       fm_createdTime := "2024-03-01T00:00:00Z";
                       fm_modifiedTime := "2024-03-02T00:00:00Z" |}])
  ∧ fst (_get_fileids_meta Shared.build 1 Scenario.reader_with_config None None
           (Some "A") None None Scenario.w0)
    = Returned (Some [Scenario.file_meta "A" "a.pdf" Scenario.pdf]).
Proof.
  split.
  - destruct (single_file_lookup Shared.build 0 Scenario.reader_with_config None None
                (Some "D") None None Scenario.w0 Shared.item_D "D" "plan.pdf"
                Scenario.pdf "2024-03-01T00:00:00Z" "2024-03-02T00:00:00Z"
                eq_refl eq_refl eq_refl eq_refl eq_refl eq_refl eq_refl)
      as [Hshared _].
    by rewrite (Hshared "drive-1" eq_refl).
  - destruct (single_file_lookup Shared.build 0 Scenario.reader_with_config None None
                (Some "A") None None Scenario.w0 Scenario.item_A "A" "a.pdf"
                Scenario.pdf "2024-01-01T00:00:00Z" "2024-01-02T00:00:00Z"
                eq_refl eq_refl eq_refl eq_refl eq_refl eq_refl eq_refl)
      as [_ Howned].
    by rewrite (Howned "Ada" [] eq_refl eq_refl).
Defined.

(** The file [N] has no [owners] and is in no shared drive: the lookup
    returns [None]. *)
Lemma incomplete_file_yields_none_witness :
  fst (_get_fileids_meta Shared.build 1 Scenario.reader_with_config None None
         (Some "N") None None Scenario.w0)
  = Returned None
  ∧ exc_info <$> log (snd (_get_fileids_meta Shared.build 1
                             Scenario.reader_with_config None None (Some "N") None
                             None Scenario.w0))
    = [Some (KeyError "owners")].
Proof.
  destruct (incomplete_file_yields_none Shared.build 0 Scenario.reader_with_config
              None None (Some "N") None None Scenario.w0 Shared.item_N
              eq_refl eq_refl eq_refl) as (e & _ & Hrun).
  rewrite Hrun. split; [reflexivity|].
  assert (e = KeyError "owners") as ->; [|reflexivity].
  assert (_get_fileids_meta Shared.build 1 Scenario.reader_with_config None None
            (Some "N") None None Scenario.w0
          = (Returned None,
             add_log {| level := ERROR; message := get_error_msg;
                        exc_info := Some (KeyError "owners") |}
               (add_event (EvFilesGet {| get_fileId := Some "N";
                                         get_fields := Some "*" |}) Scenario.w0)))
    as Hconcrete by reflexivity.
  rewrite Hconcrete in Hrun. by injection Hrun as <-.
Defined.

Lemma tuple_of_mime (item : Item) (m : FileMeta) :
  tuple_of item = Some m → item_mimeType item = Some (fm_mimeType m).
Proof.
  unfold tuple_of.
  destruct (author_of_item item), (item_id item), (item_name item),
    (item_mimeType item), (item_createdTime item), (item_modifiedTime item);
    try done.
  by intros [= <-].
Qed.

Section SinglePageFacts.

Context (build : option Credentials → DriveService).

(** The loop over a listing of plain files appends their tuples in order and
    sends nothing. *)
Lemma visit_plain_files recur drive_id mime_types query_string items metas acc w :
  Forall2 plain_file items metas →
  for_each (visit_item recur drive_id mime_types query_string) items acc w
  = (Returned (acc ++ metas), w).
Proof.
  intros Hplain. revert acc.
  induction Hplain as [|item m items metas [Htuple Hmime] _ IH]; intros acc; simpl.
  - by rewrite app_nil_r.
  - unfold visit_item at 1.
    rewrite (bind_returned _ _ w (acc ++ [m]) w); [by rewrite IH, <- app_assoc|].
    rewrite (tuple_of_mime _ _ Htuple). simpl. rewrite bind_ret_l.
    destruct (String.eqb_spec (fm_mimeType m) folder_mime_type) as [Heq|_]; [done|].
    by rewrite (bind_returned _ _ _ _ _ (file_meta_of_tuple _ _ _ Htuple)).
Qed.

(** X5.  A folder whose listing fits in one page of plain files, enumerated
    without a MIME filter: the result is the tuples of the listed items, in
    the order of the listing, after exactly one list request. *)
Theorem single_page_listing_in_order (fuel : nat) (self : GoogleDriveReader)
    (drive_id : option string) (fid : string) (file_id query_string : option string)
    (w : World) (resp : ListResponse) (metas : list FileMeta) :
  truthy_str (Some fid) = true →
  files_list (build (_creds self))
    (list_request drive_id
       (add_query_string query_string ("('" +:+ fid +:+ "' in parents)")))
    = Ok resp →
  nextPageToken resp = None →
  Forall2 plain_file (default [] (resp_files resp)) metas →
  _get_fileids_meta build (S (S fuel)) self drive_id (Some fid) file_id None
    query_string w
  = (Returned (Some metas),
     add_event
       (EvFilesList
          (list_request drive_id
             (add_query_string query_string ("('" +:+ fid +:+ "' in parents)")))) w).
Proof.
  intros Htruthy Hresp Htok Hplain.
  change (_get_fileids_meta build (S (S fuel)) self drive_id (Some fid) file_id None
            query_string w)
    with (try_log get_error_msg
            (get_fileids_meta_body build (_get_fileids_meta build (S fuel) self)
               (S fuel) self drive_id (Some fid) file_id None query_string) w).
  apply try_log_returned. unfold get_fileids_meta_body. rewrite Htruthy.
  cbv beta iota zeta. unfold add_mime_filter. rewrite bind_ret_l.
  change (default "" (Some fid)) with fid.
  rewrite (bind_returned _ _ _ _ _ (list_pages_single _ fuel _ _ [] w Hresp Htok)).
  rewrite app_nil_l.
  by rewrite (bind_returned _ _ _ _ _
                (visit_plain_files _ _ _ _ _ _ [] _ Hplain)).
Qed.

End SinglePageFacts.

(** Without a filter, the listing of [F] in the folderless tree of plain
    files [A; B] comes back in that order. *)
Lemma single_page_listing_in_order_witness :
  _get_fileids_meta Flat.build 2 Scenario.reader_with_config None (Some "F") None None
    None Scenario.w0
  = (Returned (Some [Scenario.file_meta "A" "a.pdf" Scenario.pdf;
                     Scenario.file_meta "B" "b.docx" Scenario.docx]),
     add_event (EvFilesList (list_request None "('F' in parents)")) Scenario.w0).
Proof.
  apply (single_page_listing_in_order Flat.build 0 Scenario.reader_with_config None
           "F" None None Scenario.w0
           (Scenario.page [Scenario.item_A; Scenario.item_B] None)
           [Scenario.file_meta "A" "a.pdf" Scenario.pdf;
            Scenario.file_meta "B" "b.docx" Scenario.docx]
           eq_refl eq_refl eq_refl).
  repeat constructor; simpl; discriminate.
Defined.

(** ** Loading: how failures travel *)

Lemma for_each_cons {A B} (step : B → A → M B) x xs acc :
  for_each step (x :: xs) acc = (acc' <- step acc x ;; for_each step xs acc').
Proof. reflexivity. Qed.

Lemma bind_raise {A B} (e : exn) (k : A → M B) w :
  bind (raise e) k w = (Raised e, w).
Proof. reflexivity. Qed.

Lemma bind_assoc_run {A B C} (m : M A) (k : A → M B) (k' : B → M C) w :
  bind (bind m k) k' w = bind m (fun a => bind (k a) k') w.
Proof. unfold bind. by destruct (m w) as [[a|e|] w1]. Qed.

Lemma file_meta_of_world (item : Item) (w : World) :
  (∃ m, file_meta_of item w = (Returned m, w))
  ∨ (∃ e, file_meta_of item w = (Raised e, w)).
Proof.
  destruct (tuple_of item) as [m|] eqn:Htuple.
  - left. exists m. by apply file_meta_of_tuple.
  - right. destruct (file_meta_of_incomplete item w Htuple) as (e & He & _). eauto.
Qed.

Lemma mkdtemp_world w o w1 :
  TempDir.mkdtemp w = (o, w1) →
  trace w1 = trace w ∧ log w1 = log w ∧ heap w1 = heap w.
Proof.
  unfold TempDir.mkdtemp. destruct (_ || _); by intros [= <- <-].
Qed.

Section LoadingFacts.

Context (build : option Credentials → DriveService) (reader : DirectoryReader).

(** A lookup by file id always returns; it sends the one metadata request and
    touches neither files nor directories. *)
Lemma file_mode_step fuel self drive_id folder_id file_id mime_types query_string w :
  truthy_str folder_id = false →
  let r := _get_fileids_meta build (S fuel) self drive_id folder_id file_id
             mime_types query_string w in
  (∃ found, fst r = Returned found
            ∧ (∀ e, files_get (build (_creds self))
                      {| get_fileId := file_id; get_fields := Some "*" |} = Err e →
                    found = None))
  ∧ files (snd r) = files w ∧ dirs (snd r) = dirs w ∧ tmp_seq (snd r) = tmp_seq w
  ∧ trace (snd r)
    = trace w ++ [EvFilesGet {| get_fileId := file_id; get_fields := Some "*" |}].
Proof.
  intros Hfolder. cbv zeta. simpl. unfold try_log, get_fileids_meta_body.
  rewrite Hfolder. cbv beta iota zeta. rewrite bind_emit. unfold lift.
  destruct (files_get _ _) as [file|e]; simpl.
  - rewrite bind_ret_l.
    destruct (file_meta_of_world file
                (add_event (EvFilesGet {| get_fileId := file_id;
                                          get_fields := Some "*" |}) w))
      as [[m Hm]|[e Hm]].
    + rewrite (bind_returned _ _ _ _ _ Hm). simpl. repeat split; eauto.
      eexists. split; [done|]. by intros ? [=].
    + rewrite (bind_raised _ _ _ _ _ Hm). simpl. repeat split; eauto.
  - repeat split; eauto.
Qed.

(** The loop of [_load_from_file_ids] stops with an error at the first file
    id whose lookup fails; up to there it has only sent metadata requests. *)
Lemma file_ids_loop fuel self drive_id mime_types query_string file_ids acc w :
  let r := for_each
             (fun fileids_meta file_id =>
                found <- _get_fileids_meta build (S fuel) self drive_id None
                           (Some file_id) mime_types query_string ;;
                extend fileids_meta found)
             file_ids acc w in
  fst r ≠ OutOfFuel
  ∧ files (snd r) = files w ∧ dirs (snd r) = dirs w ∧ tmp_seq (snd r) = tmp_seq w
  ∧ (∃ t, trace (snd r) = trace w ++ t ∧ Forall metadata_event t)
  ∧ ((∃ bad e, bad ∈ file_ids
               ∧ files_get (build (_creds self))
                   {| get_fileId := Some bad; get_fields := Some "*" |} = Err e) →
     ∃ e', fst r = Raised e').
Proof.
  cbv zeta. revert acc w. induction file_ids as [|file_id file_ids IH]; intros acc w.
  - simpl. repeat split; try done.
    + exists []. by rewrite app_nil_r.
    + intros (bad & e & Hin & _). by apply elem_of_nil in Hin.
  - rewrite for_each_cons.
    destruct (file_mode_step fuel self drive_id None (Some file_id) mime_types
                query_string w eq_refl)
      as ((found & Hfound & Herr) & Hfiles & Hdirs & Hseq & Htrace).
    destruct (_get_fileids_meta build (S fuel) self drive_id None (Some file_id)
                mime_types query_string w) as [o w1] eqn:Hstep.
    cbn [fst snd] in *. subst o.
    rewrite (bind_assoc_run _ _ _ w). rewrite (bind_returned _ _ _ _ _ Hstep).
    destruct found as [found|]; cbn [extend].
    2: rewrite bind_raise; cbn [fst snd].
    1: rewrite bind_ret_l.
    + destruct (IH (acc ++ found) w1) as (Hfuel & Hf & Hd & Hs & (t & Ht & Hmeta) & Hbad).
      split; [done|]. split; [congruence|]. split; [congruence|]. split; [congruence|].
      split.
      * exists (EvFilesGet {| get_fileId := Some file_id; get_fields := Some "*" |} :: t).
        split; [rewrite Ht, Htrace; by rewrite <- app_assoc|].
        constructor; [by eexists|done].
      * intros (bad & e & Hin & Hget). apply elem_of_cons in Hin as [->|Hin].
        -- by specialize (Herr e Hget).
        -- apply Hbad. eauto.
    + split; [done|]. split; [done|]. split; [done|]. split; [done|]. split.
      * eexists. split; [exact Htrace|]. constructor; [by eexists|constructor].
      * intros _. eauto.
Qed.

(** X6.  One file id whose metadata lookup fails voids the whole load by file
    ids: [_load_from_file_ids] returns [None], no scratch directory is made,
    no file is written and nothing but metadata requests has been sent, so no
    file was downloaded, not even the ones whose lookup succeeded. *)
Theorem bad_file_id_voids_load (fuel : nat) (self : GoogleDriveReader)
    (drive_id : option string) (file_ids : list string) (mime_types : option nat)
    (query_string : option string) (w : World) (bad : string) (e : exn) :
  bad ∈ file_ids →
  files_get (build (_creds self)) {| get_fileId := Some bad; get_fields := Some "*" |}
    = Err e →
  let r := _load_from_file_ids build reader (S fuel) self drive_id file_ids
             mime_types query_string w in
  fst r = Returned None
  ∧ files (snd r) = files w ∧ dirs (snd r) = dirs w ∧ tmp_seq (snd r) = tmp_seq w
  ∧ ∃ t, trace (snd r) = trace w ++ t ∧ Forall metadata_event t.
Proof.
  intros Hin Hget. cbv zeta. unfold _load_from_file_ids.
  destruct (file_ids_loop fuel self drive_id mime_types query_string file_ids [] w)
    as (_ & Hfiles & Hdirs & Hseq & Htrace & Hbad).
  destruct Hbad as [e' Hraise]; [eauto|].
  destruct (for_each _ file_ids [] w) as [o w1] eqn:Hloop. simpl in *. subst o.
  rewrite (try_log_catches _ _ _ e' w1) by (by apply bind_raised).
  simpl. eauto.
Qed.

(** X7.  When folder enumeration has failed (it returned [None]),
    [_load_from_folder] returns [None] as well, not an empty list: iterating
    the missing result raises inside assembly, which logs one more error.  No
    download is requested. *)
Theorem failed_enumeration_loads_none (fuel : nat) (self : GoogleDriveReader)
    (drive_id folder_id : option string) (mime_types : option nat)
    (query_string : option string) (w w1 : World) :
  _get_fileids_meta build fuel self drive_id folder_id None mime_types query_string w
    = (Returned None, w1) →
  let r := _load_from_folder build reader fuel self drive_id folder_id mime_types
             query_string w in
  fst r = Returned None
  ∧ trace (snd r) = trace w1
  ∧ ∃ e, log (snd r)
         = log w1 ++ [{| level := ERROR; message := load_error_msg;
                         exc_info := Some e |}].
Proof.
  intros Henum. cbv zeta. unfold _load_from_folder.
  assert (∃ e w2, _load_data_fileids_meta build reader self None w1
                  = (Returned None,
                     add_log {| level := ERROR; message := load_error_msg;
                                exc_info := Some e |} w2)
                  ∧ trace w2 = trace w1 ∧ log w2 = log w1) as (e & w2 & Hload & Ht & Hl).
  { unfold _load_data_fileids_meta, load_data_fileids_meta_body.
    destruct (TempDir.mkdtemp w1) as [[d| |] w2] eqn:Hmk.
    - destruct (mkdtemp_world _ _ _ Hmk) as (Ht & Hl & _).
      eexists _, _. split.
      + apply try_log_catches. eapply bind_raised, scoped_raised; [exact Hmk|].
        reflexivity.
      + by simpl.
    - destruct (mkdtemp_world _ _ _ Hmk) as (Ht & Hl & _).
      eexists _, _. split; [|split; [exact Ht|exact Hl]].
      apply try_log_catches. apply bind_raised. unfold TempDir.scoped.
      by apply bind_raised.
    - unfold TempDir.mkdtemp in Hmk. by destruct (_ || _). }
  rewrite (try_log_returned _ _ _ None
             (add_log {| level := ERROR; message := load_error_msg;
                         exc_info := Some e |} w2))
    by (by rewrite (bind_returned _ _ _ _ _ Henum)).
  simpl. rewrite Ht, Hl. eauto.
Qed.

End LoadingFacts.

(** The lookup of the unknown id [Z] fails: nothing is loaded, although [A]
    was found. *)
Lemma bad_file_id_voids_load_witness :
  fst (_load_from_file_ids Scenario.tree_build Scenario.dir_reader 1
         Scenario.reader_with_config None ["A"; "Z"] None None Scenario.w0)
  = Returned None
  ∧ files (snd (_load_from_file_ids Scenario.tree_build Scenario.dir_reader 1
                  Scenario.reader_with_config None ["A"; "Z"] None None Scenario.w0))
    = files Scenario.w0
  ∧ trace (snd (_load_from_file_ids Scenario.tree_build Scenario.dir_reader 1
                  Scenario.reader_with_config None ["A"; "Z"] None None Scenario.w0))
    = [EvFilesGet {| get_fileId := Some "A"; get_fields := Some "*" |};
       EvFilesGet {| get_fileId := Some "Z"; get_fields := Some "*" |}].
Proof.
  assert ("Z" ∈ ["A"; "Z"]) as Hin by (right; left).
  destruct (bad_file_id_voids_load Scenario.tree_build Scenario.dir_reader 0
              Scenario.reader_with_config None ["A"; "Z"] None None Scenario.w0 "Z"
              (HttpError "File not found") Hin eq_refl)
    as (Hnone & Hfiles & _).
  split; [exact Hnone|]. split; [exact Hfiles|]. reflexivity.
Defined.

(** The provider is down: enumeration of [F] returns [None], and so does the
    load from the folder, with the two errors logged. *)
Lemma failed_enumeration_loads_none_witness :
  fst (_load_from_folder Scenario.failing_build Scenario.dir_reader 2
         Scenario.reader_with_config None (Some "F") None None Scenario.w0)
  = Returned None
  ∧ exc_info <$> log (snd (_load_from_folder Scenario.failing_build
                             Scenario.dir_reader 2 Scenario.reader_with_config None
                             (Some "F") None None Scenario.w0))
    = [Some (HttpError "503"); Some (TypeError "'NoneType' object is not iterable")].
Proof.
  destruct (failed_enumeration_loads_none Scenario.failing_build Scenario.dir_reader 2
              Scenario.reader_with_config None (Some "F") None None Scenario.w0 _
              eq_refl) as (Hnone & _).
  split; [exact Hnone|reflexivity].
Defined.

(** ** The metadata block *)

(** X8.  The metadata object built for a file holds its six fields under the
    keys ["file id"], ["author"], ["file name"], ["mime type"],
    ["created at"] and ["modified at"] and nothing else, so the tuple can be
    read back from it: two tuples with the same metadata object are equal. *)
Theorem metadata_block_round_trip (m : FileMeta) :
  metadata_of m !! "file id" = Some (fm_id m)
  ∧ metadata_of m !! "author" = Some (fm_author m)
  ∧ metadata_of m !! "file name" = Some (fm_name m)
  ∧ metadata_of m !! "mime type" = Some (fm_mimeType m)
  ∧ metadata_of m !! "created at" = Some (fm_createdTime m)
  ∧ metadata_of m !! "modified at" = Some (fm_modifiedTime m)
  ∧ dom (metadata_of m)
    = {[ "file id"; "author"; "file name"; "mime type"; "created at";
         "modified at" ]}
  ∧ ∀ m', metadata_of m' = metadata_of m → m' = m.
Proof.
  assert (∀ x : FileMeta,
            metadata_of x !! "file id" = Some (fm_id x)
            ∧ metadata_of x !! "author" = Some (fm_author x)
            ∧ metadata_of x !! "file name" = Some (fm_name x)
            ∧ metadata_of x !! "mime type" = Some (fm_mimeType x)
            ∧ metadata_of x !! "created at" = Some (fm_createdTime x)
            ∧ metadata_of x !! "modified at" = Some (fm_modifiedTime x)) as Hlookup.
  { intros x. unfold metadata_of. repeat split; by simplify_map_eq. }
  destruct (Hlookup m) as (H1 & H2 & H3 & H4 & H5 & H6).
  do 6 (split; [done|]). split.
  - unfold metadata_of. rewrite !dom_insert_L, dom_empty_L. set_solver.
  - intros m' Heq. destruct (Hlookup m') as (H1' & H2' & H3' & H4' & H5' & H6').
    rewrite Heq in *. destruct m, m'. simpl in *. congruence.
Qed.

(** ** What a download leaves alone *)

Section DownloadFrame.

Context (build : option Credentials → DriveService).

(** X9.  [_download_file] touches no path but the one it opens for
    writing, the path its download plan names for the MIME type the metadata
    request reported: every other path, the base path of an exported file
    included, has the content it had before, whatever the outcome of the
    call.  It creates no directory. *)
Theorem download_touches_only_its_path (self : GoogleDriveReader)
    (fileid filename : string) (w : World) (p : string) :
  (∀ file mime,
     files_get (build (_creds self)) {| get_fileId := Some fileid; get_fields := None |}
       = Ok file →
     item_mimeType file = Some mime →
     p ≠ (download_plan self mime fileid filename).1) →
  files (snd (_download_file build self fileid filename w)) !! p = files w !! p
  ∧ dirs (snd (_download_file build self fileid filename w)) = dirs w.
Proof.
  unfold _download_file, try_log, download_file_body. run.
  destruct (files_get _ _) as [file|e]; simpl; [|done].
  destruct (item_mimeType file) as [mime|] eqn:Hmime; simpl; [|done].
  intros Hother. specialize (Hother file mime eq_refl Hmime).
  destruct (download_plan self mime fileid filename) as [path request]. simpl in *.
  destruct (media_chunks _ request) as [chunks|e]; simpl; [|done].
  unfold Fs.write. simpl.
  destruct (bool_decide _); simpl; [done|].
  destruct (Fs.parent_exists _ _); simpl; [|done].
  split; [|done]. by apply lookup_insert_ne.
Qed.

End DownloadFrame.

(** The Google document [X] is saved as [/tmp/X.docx]; nothing appears at the
    base path [/tmp/X]. *)
Lemma download_touches_only_its_path_witness :
  fst (_download_file Scenario.tree_build Scenario.reader_with_config "X" "/tmp/X"
         Scenario.w0) = Returned (Some "/tmp/X.docx")
  ∧ files (snd (_download_file Scenario.tree_build Scenario.reader_with_config "X"
                  "/tmp/X" Scenario.w0)) !! "/tmp/X"
    = None.
Proof.
  split; [reflexivity|].
  refine (proj1 (download_touches_only_its_path Scenario.tree_build
                   Scenario.reader_with_config "X" "/tmp/X" Scenario.w0 "/tmp/X" _)).
  intros file mime [= <-] [= <-]. vm_compute. discriminate.
Defined.

(** ** Which errors reach the caller of [load_data] *)

Section EscapeFacts.

Context (auth : AuthLib) (build : option Credentials → DriveService)
        (reader : DirectoryReader).

(** X10.  The only exceptions [load_data] raises are those of credential
    resolution: it raises [e] exactly when [_get_credentials] does, and then
    nothing else has happened.  Every failure after that is turned into a
    [None] result by the methods it calls. *)
Theorem only_credential_errors_escape (fuel : nat) (self : GoogleDriveReader)
    (drive_id folder_id : option string) (file_ids : option (list string))
    (mime_types : option nat) (query_string : option string) (w : World) (e : exn)
    (w' : World) :
  load_data auth build reader fuel self drive_id folder_id file_ids mime_types
    query_string w = (Raised e, w')
  ↔ _get_credentials auth self w = (Raised e, w').
Proof.
  unfold load_data, bind.
  destruct (_get_credentials auth self w) as [[creds|e'|] w1];
    [|split; by intros [= -> ->]|split; by intros [=]].
  split; [|done]. intros Hraise. exfalso.
  apply (f_equal fst) in Hraise. cbn [fst] in Hraise.
  destruct (truthy_str folder_id).
  - by apply try_log_never_raises in Hraise.
  - destruct (truthy_list file_ids); [|done].
    by apply try_log_never_raises in Hraise.
Qed.

End EscapeFacts.

(** The token endpoint rejects the refresh: [load_data] raises that error,
    while a provider that is down only makes it return [None]. *)
Lemma only_credential_errors_escape_witness :
  load_data Broken.auth Scenario.tree_build Scenario.dir_reader 3
    Scenario.reader_with_user_info None (Some "F") None None None Scenario.w0
  = (Raised (RefreshError "invalid_grant"), add_event EvTokenRefresh Scenario.w0)
  ∧ fst (load_data Scenario.auth Scenario.failing_build Scenario.dir_reader 3
           Scenario.reader_with_user_info None (Some "F") None None None Scenario.w0)
    = Returned None.
Proof.
  split; [|reflexivity].
  apply (only_credential_errors_escape Broken.auth Scenario.tree_build
           Scenario.dir_reader 3 Scenario.reader_with_user_info None (Some "F") None
           None None Scenario.w0 (RefreshError "invalid_grant")
           (add_event EvTokenRefresh Scenario.w0)).
  reflexivity.
Defined.

(** ** Assembly attempts every file *)

Lemma get_requests_app (t1 t2 : list Event) :
  get_requests (t1 ++ t2) = get_requests t1 ++ get_requests t2.
Proof. apply omap_app. Qed.

(** The call returned in a world whose trace has [n] more events. *)
Ltac after_events n :=
  match n with
  | 1 => eexists _, _, [_]
  | 2 => eexists _, _, [_; _]
  end;
  split; [reflexivity|]; split; [simpl; by rewrite <- ?app_assoc|reflexivity].

Section AttemptFacts.

Context (build : option Credentials → DriveService) (reader : DirectoryReader).

(** A download always returns, after one metadata request for the file. *)
Lemma download_trace (self : GoogleDriveReader) fileid filename w :
  ∃ r w' t, _download_file build self fileid filename w = (Returned r, w')
            ∧ trace w' = trace w ++ t
            ∧ get_requests t = [{| get_fileId := Some fileid; get_fields := None |}].
Proof.
  unfold _download_file, try_log, download_file_body. run.
  destruct (files_get _ _) as [file|e]; simpl; [|after_events 1].
  destruct (item_mimeType file) as [mime|]; simpl; [|after_events 1].
  destruct (download_plan self mime fileid filename) as [path request]. simpl.
  destruct (media_chunks _ request) as [chunks|e]; simpl; [|after_events 2].
  unfold Fs.write. simpl.
  destruct (bool_decide _); simpl; [after_events 2|].
  destruct (Fs.parent_exists _ _); simpl; after_events 2.
Qed.

(** The download loop looks up every file it is given, in order, whatever
    becomes of the individual downloads. *)
Lemma stage_loop_trace (self : GoogleDriveReader) temp_dir xs acc w :
  ∃ md w' t, for_each (stage_file build self temp_dir) xs acc w = (Returned md, w')
             ∧ trace w' = trace w ++ t
             ∧ get_requests t = download_lookup <$> xs.
Proof.
  revert acc w. induction xs as [|x xs IH]; intros acc w.
  - exists acc, w, []. by rewrite app_nil_r.
  - rewrite for_each_cons. unfold stage_file at 1.
    destruct (download_trace self (fm_id x) (Fs.join temp_dir (fm_id x)) w)
      as (r & w1 & t1 & Hrun & Ht1 & Hget1).
    rewrite (bind_assoc_run _ _ _ w), (bind_returned _ _ _ _ _ Hrun), bind_ret_l.
    destruct (IH (<[r := metadata_of x]> acc) w1) as (md & w' & t2 & Hloop & Ht2 & Hget2).
    exists md, w', (t1 ++ t2). split; [done|]. split.
    + by rewrite Ht2, Ht1, <- app_assoc.
    + by rewrite get_requests_app, Hget1, Hget2.
Qed.

(** X11.  Once the scratch directory exists, assembly looks up every
    supplied tuple exactly once, in the order supplied: the metadata requests
    it sends are those of the tuples' ids, whether or not earlier downloads
    failed and whatever the directory reader does afterwards. *)
Theorem every_file_is_attempted (self : GoogleDriveReader) (metas : list FileMeta)
    (w : World) (d : string) (w1 : World) :
  TempDir.mkdtemp w = (Returned d, w1) →
  ∃ t, trace (snd (_load_data_fileids_meta build reader self (Some metas) w))
       = trace w ++ t
       ∧ get_requests t = download_lookup <$> metas.
Proof.
  intros Hmk. destruct (mkdtemp_world _ _ _ Hmk) as (Htrace1 & _ & _).
  destruct (stage_loop_trace self d metas ∅ w1) as (md & w2 & t & Hloop & Ht & Hget).
  exists t. split; [|done]. rewrite <- Htrace1, <- Ht.
  unfold _load_data_fileids_meta, load_data_fileids_meta_body.
  assert ((∃ docs, stage_and_load build reader self (Some metas) d w1
                   = (Returned docs, w2))
          ∨ (∃ e, stage_and_load build reader self (Some metas) d w1
                  = (Raised e, w2))) as [[docs Hstage]|[e Hstage]].
  { unfold stage_and_load. simpl. rewrite bind_ret_l.
    rewrite (bind_returned _ _ _ _ _ Hloop). unfold bind.
    destruct (load_directory reader d (files w2) (get_metadata md)); simpl; eauto. }
  - erewrite try_log_returned
      by (erewrite bind_returned by (eapply scoped_returned; eauto); reflexivity).
    reflexivity.
  - erewrite try_log_catches by (eapply bind_raised, scoped_raised; eauto).
    reflexivity.
Qed.

End AttemptFacts.

(** The unknown file [Z] cannot be downloaded; [Y], which comes after it, is
    looked up and downloaded all the same. *)
Lemma every_file_is_attempted_witness :
  trace (snd (_load_data_fileids_meta Scenario.tree_build Scenario.dir_reader
                Scenario.reader_with_config
                (Some [Scenario.file_meta "Z" "gone" Scenario.plain; Scenario.meta_Y])
                Scenario.w0))
  = [EvFilesGet {| get_fileId := Some "Z"; get_fields := None |};
     EvFilesGet {| get_fileId := Some "Y"; get_fields := None |};
     EvMedia (GetMedia "Y")]
  ∧ ∃ t, trace (snd (_load_data_fileids_meta Scenario.tree_build Scenario.dir_reader
                       Scenario.reader_with_config
                       (Some [Scenario.file_meta "Z" "gone" Scenario.plain;
                              Scenario.meta_Y])
                       Scenario.w0))
         = trace Scenario.w0 ++ t
         ∧ get_requests t
           = [{| get_fileId := Some "Z"; get_fields := None |};
              {| get_fileId := Some "Y"; get_fields := None |}].
Proof.
  split; [reflexivity|].
  exact (every_file_is_attempted Scenario.tree_build Scenario.dir_reader
           Scenario.reader_with_config
           [Scenario.file_meta "Z" "gone" Scenario.plain; Scenario.meta_Y]
           Scenario.w0 "/tmp/tmp0" _ eq_refl).
Defined.

(** ** A failing subfolder *)

(** A loop over the items that returned has visited every item, and each
    visit returned. *)
Lemma for_each_visits {A B} (step : B → A → M B) xs acc w r w' :
  for_each step xs acc w = (Returned r, w') →
  ∀ x, x ∈ xs → ∃ acc0 w0 acc1 w1, step acc0 x w0 = (Returned acc1, w1).
Proof.
  revert acc w. induction xs as [|y xs IH]; intros acc w Hrun x Hin.
  - by apply elem_of_nil in Hin.
  - rewrite for_each_cons in Hrun.
    apply bind_inv in Hrun as (acc1 & w1 & Hstep & Hrest).
    apply elem_of_cons in Hin as [->|Hin]; eauto 6.
Qed.

Section SubfolderFacts.

Context (build : option Credentials → DriveService).

(** An unfiltered folder-mode call that returned a list has listed the
    folder successfully. *)
Lemma folder_mode_listed fuel self drive_id fid file_id query_string w metas w' :
  truthy_str (Some fid) = true →
  _get_fileids_meta build fuel self drive_id (Some fid) file_id None query_string w
    = (Returned (Some metas), w') →
  ∃ fuel' resp found w1 w2,
    fuel = S fuel'
    ∧ files_list (build (_creds self)) (plain_request drive_id query_string fid)
      = Ok resp
    ∧ for_each (visit_item (_get_fileids_meta build fuel' self) drive_id None
                  query_string)
        (default [] (resp_files resp)) [] w1 = (Returned found, w2).
Proof.
  intros Htruthy Hrun. destruct fuel as [|fuel]; [done|]. simpl in Hrun.
  apply try_log_inv in Hrun as [Hrun|(e & w1 & _ & [=] & _)].
  unfold get_fileids_meta_body in Hrun. rewrite Htruthy in Hrun.
  cbv beta iota zeta in Hrun. unfold add_mime_filter in Hrun.
  rewrite bind_ret_l in Hrun.
  apply bind_inv in Hrun as (items & w1 & Hpages & Hrun).
  apply list_pages_inv in Hpages as (resp & Hresp & _ & -> & ->).
  apply bind_inv in Hrun as (found & w2 & Hloop & _).
  exists fuel, resp, found. eauto 10.
Qed.

(** X12.  Enumeration without a MIME filter: when the listing of a folder
    shows a subfolder whose own listing fails, the call for the folder
    returns no list at all.  The failure of the subfolder is caught in the
    recursive call, which returns [None]; extending the result with [None]
    raises in the caller, so the files already found next to the subfolder
    are lost as well. *)
Theorem subfolder_failure_voids_enumeration (fuel : nat) (self : GoogleDriveReader)
    (drive_id : option string) (fid : string) (file_id query_string : option string)
    (w : World) (resp : ListResponse) (item : Item) (sub : string) (e : exn)
    (metas : list FileMeta) :
  truthy_str (Some fid) = true →
  files_list (build (_creds self)) (plain_request drive_id query_string fid) = Ok resp →
  item ∈ default [] (resp_files resp) →
  item_mimeType item = Some folder_mime_type →
  item_id item = Some sub →
  truthy_str (Some sub) = true →
  files_list (build (_creds self)) (plain_request drive_id query_string sub) = Err e →
  fst (_get_fileids_meta build fuel self drive_id (Some fid) file_id None
         query_string w) ≠ Returned (Some metas).
Proof.
  intros Htruthy Hresp Hitem Hmime Hid Hsub Hfail Hret.
  destruct (_get_fileids_meta build fuel self drive_id (Some fid) file_id None
              query_string w) as [o w'] eqn:Hrun.
  simpl in Hret. subst o.
  apply folder_mode_listed in Hrun as (fuel' & resp' & found & w1 & w2 & -> & Hresp' & Hloop);
    [|done].
  rewrite Hresp in Hresp'. injection Hresp' as <-.
  destruct (for_each_visits _ _ _ _ _ _ Hloop item Hitem)
    as (acc0 & w0 & acc1 & w3 & Hvisit).
  unfold visit_item in Hvisit. rewrite Hmime in Hvisit. simpl in Hvisit.
  rewrite bind_ret_l in Hvisit. rewrite String.eqb_refl in Hvisit.
  rewrite Hid in Hvisit. simpl in Hvisit. rewrite bind_ret_l in Hvisit.
  apply bind_inv in Hvisit as (found_sub & w4 & Hcall & Hextend).
  destruct found_sub as [found_sub|]; [|done].
  apply folder_mode_listed in Hcall as (? & resp_sub & ? & ? & ? & _ & Hlisted & _);
    [|done].
  unfold plain_request in Hlisted. rewrite list_request_norm in Hlisted.
  unfold plain_request in Hfail. congruence.
Qed.

End SubfolderFacts.

(** Folder [F] holds the file [A] and the subfolder [S], whose listing
    fails: the enumeration of [F] returns [None], [A] included. *)
Lemma subfolder_failure_voids_enumeration_witness :
  fst (_get_fileids_meta Partial.build 3 Scenario.reader_with_config None (Some "F")
         None None None Scenario.w0) = Returned None
  ∧ fst (_get_fileids_meta Partial.build 3 Scenario.reader_with_config None
           (Some "F") None None None Scenario.w0)
    ≠ Returned (Some [Scenario.file_meta "A" "a.pdf" Scenario.pdf]).
Proof.
  split; [reflexivity|].
  apply (subfolder_failure_voids_enumeration Partial.build 3
           Scenario.reader_with_config None "F" None None Scenario.w0
           (Scenario.page [Scenario.item_A; Scenario.item_S] None) Scenario.item_S
           "S" (HttpError "500")); try reflexivity.
  simpl. set_solver.
Defined.

(** ** An empty filter list *)

(** Two loops agree when their steps agree on every world that satisfies
    an invariant the steps keep. *)
Lemma for_each_agree {A B} (P : World → Prop) (step1 step2 : B → A → M B) xs acc w :
  (∀ acc x w, P w → step1 acc x w = step2 acc x w) →
  (∀ acc x w, P w → P (snd (step2 acc x w))) →
  P w → for_each step1 xs acc w = for_each step2 xs acc w.
Proof.
  intros Hagree Hkeep. revert acc w.
  induction xs as [|x xs IH]; intros acc w HP; [done|].
  rewrite !for_each_cons. unfold bind. rewrite Hagree by done.
  specialize (Hkeep acc x w HP).
  destruct (step2 acc x w) as [[acc'|e|] w1]; auto.
Qed.

Lemma add_mime_filter_empty l query w :
  heap w !! l = Some [] → add_mime_filter (Some l) query w = (Returned query, w).
Proof. intros Hl. unfold add_mime_filter, bind, deref. by rewrite Hl. Qed.

Section EmptyFilterFacts.

Context (build : option Credentials → DriveService).

Lemma empty_filter_step fuel self drive_id folder_id file_id query_string l w :
  heap w !! l = Some [] →
  _get_fileids_meta build fuel self drive_id folder_id file_id (Some l)
    query_string w
  = _get_fileids_meta build fuel self drive_id folder_id file_id None
      query_string w.
Proof.
  revert drive_id folder_id file_id w.
  induction fuel as [|fuel IH]; intros drive_id folder_id file_id w Hl; [done|].
  simpl. unfold try_log.
  enough (get_fileids_meta_body build (_get_fileids_meta build fuel self) fuel self
            drive_id folder_id file_id (Some l) query_string w
          = get_fileids_meta_body build (_get_fileids_meta build fuel self) fuel self
              drive_id folder_id file_id None query_string w) as -> by done.
  unfold get_fileids_meta_body. destruct (truthy_str folder_id); [|done].
  rewrite (bind_returned _ _ _ _ _ (add_mime_filter_empty l _ w Hl)).
  unfold add_mime_filter. rewrite bind_ret_l.
  unfold bind at 1 3.
  pose proof (heap_frame_list_pages (fun _ => True) fuel (build (_creds self))
                (list_request drive_id
                   (add_query_string query_string
                      ("('" +:+ default "" folder_id +:+ "' in parents)")))
                [] w I) as Hpages.
  destruct (list_pages _ _ _ _ w) as [[items|e|] w1]; [|done..].
  simpl in Hpages. unfold bind.
  erewrite (for_each_agree (fun w => heap w !! l = Some [])); [done| | |by rewrite Hpages].
  - intros acc item w2 Hl2. unfold visit_item.
    destruct (item_mimeType item) as [mime|]; [|done].
    cbn [subscript]. rewrite !bind_ret_l.
    destruct (String.eqb mime folder_mime_type); [|done].
    destruct (item_id item) as [id|]; [|done].
    cbn [subscript]. rewrite !bind_ret_l.
    unfold bind. by rewrite IH.
  - intros acc item w2 Hl2.
    enough (heap_frame (fun _ => True)
              (visit_item (_get_fileids_meta build fuel self) drive_id None
                 query_string acc item)) as Hframe
      by (by rewrite Hframe).
    unfold visit_item. frame.
    apply (heap_frame_get_fileids_meta build _ _ _ _ _ None).
Qed.

(** X13.  An empty MIME filter list is no filter: started with an empty
    list, enumeration sends the requests, returns the tuples and writes the
    log of a call without a filter, and the caller's list stays empty
    (the folder type is appended only to a list that has an element). *)
Theorem empty_filter_is_no_filter (fuel : nat) (self : GoogleDriveReader)
    (drive_id folder_id file_id query_string : option string) (l : nat) (w : World) :
  heap w !! l = Some [] →
  _get_fileids_meta build fuel self drive_id folder_id file_id (Some l)
    query_string w
  = _get_fileids_meta build fuel self drive_id folder_id file_id None
      query_string w
  ∧ heap (snd (_get_fileids_meta build fuel self drive_id folder_id file_id
                 (Some l) query_string w)) !! l = Some [].
Proof.
  intros Hl. split; [by apply empty_filter_step|].
  rewrite heap_frame_get_fileids_meta; [done|]. simpl. by rewrite Hl.
Qed.

End EmptyFilterFacts.

(** The tree under [F], enumerated with the empty list at address 0: the
    three files come back, [B] (not a PDF) included, as without a filter. *)
Lemma empty_filter_is_no_filter_witness :
  fst (_get_fileids_meta Scenario.tree_build 3 Scenario.reader_with_config None
         (Some "F") None (Some 0) None w_empty_filter)
  = Returned (Some [Scenario.file_meta "A" "a.pdf" Scenario.pdf;
                    Scenario.file_meta "B" "b.docx" Scenario.docx;
                    Scenario.file_meta "C" "c.pdf" Scenario.pdf])
  ∧ _get_fileids_meta Scenario.tree_build 3 Scenario.reader_with_config None
      (Some "F") None (Some 0) None w_empty_filter
    = _get_fileids_meta Scenario.tree_build 3 Scenario.reader_with_config None
        (Some "F") None None None w_empty_filter
  ∧ heap (snd (_get_fileids_meta Scenario.tree_build 3 Scenario.reader_with_config
                 None (Some "F") None (Some 0) None w_empty_filter)) !! 0
    = Some [].
Proof.
  split; [reflexivity|].
  apply (empty_filter_is_no_filter Scenario.tree_build 3 Scenario.reader_with_config
           None (Some "F") None None 0 w_empty_filter).
  reflexivity.
Defined.

(** ** Loading by file id ignores the filters *)

Section FileModeFacts.

Context (auth : AuthLib) (build : option Credentials → DriveService)
        (reader : DirectoryReader).

(** Without a folder, enumeration reads neither the drive id, nor the MIME
    filter, nor the query string. *)
Lemma single_file_ignores_filters fuel self drive_id file_id mime_types query_string :
  _get_fileids_meta build fuel self drive_id None file_id mime_types query_string
  = _get_fileids_meta build fuel self None None file_id None None.
Proof. by destruct fuel. Qed.

Lemma load_from_file_ids_ignores_filters fuel self drive_id file_ids mime_types
    query_string w :
  _load_from_file_ids build reader fuel self drive_id file_ids mime_types
    query_string w
  = _load_from_file_ids build reader fuel self None file_ids None None w.
Proof.
  unfold _load_from_file_ids, try_log, bind.
  rewrite (for_each_agree (fun _ => True) _
             (fun fileids_meta file_id =>
                found <- _get_fileids_meta build fuel self None None (Some file_id)
                           None None ;;
                extend fileids_meta found)); [done| |done..].
  intros acc file_id w' _. by rewrite single_file_ignores_filters.
Qed.

(** X14.  Loading by file id ignores the filters: when no folder is
    given, [load_data] makes the same requests, returns the same documents
    and leaves the same log and files whatever the drive id, the MIME filter
    and the query string are, and the caller's filter list is not changed.
    Each id is fetched with a metadata request that carries none of the
    three. *)
Theorem file_mode_ignores_filters (fuel : nat) (self : GoogleDriveReader)
    (drive_id folder_id : option string) (file_ids : option (list string))
    (mime_types : option nat) (query_string : option string) (w : World) :
  truthy_str folder_id = false →
  load_data auth build reader fuel self drive_id folder_id file_ids mime_types
    query_string w
  = load_data auth build reader fuel self None folder_id file_ids None None w
  ∧ heap (snd (load_data auth build reader fuel self drive_id folder_id file_ids
                 mime_types query_string w)) = heap w.
Proof.
  intros Hfolder.
  assert (load_data auth build reader fuel self drive_id folder_id file_ids
            mime_types query_string w
          = load_data auth build reader fuel self None folder_id file_ids None None w)
    as Heq.
  { unfold load_data, bind. destruct (_get_credentials auth self w) as [[c|e|] w1];
      [|done..].
    rewrite Hfolder. destruct (truthy_list file_ids); [|done].
    apply load_from_file_ids_ignores_filters. }
  split; [exact Heq|]. rewrite Heq.
  enough (heap_frame (fun _ => True)
            (load_data auth build reader fuel self None folder_id file_ids None None))
    as Hframe by (by apply Hframe).
  unfold load_data. rewrite Hfolder.
  apply heap_frame_bind; [apply heap_frame_get_credentials|]. intros creds.
  destruct (truthy_list file_ids); [|by intros w' _].
  unfold _load_from_file_ids. apply heap_frame_try_log.
  apply heap_frame_bind; [|intros metas; apply heap_frame_load_data_fileids_meta].
  apply heap_frame_for_each. intros acc file_id.
  apply heap_frame_bind; [|intros found; apply heap_frame_extend].
  apply (heap_frame_get_fileids_meta build _ _ _ _ _ None).
Qed.

End FileModeFacts.

(** The file [B] is a Word document; it is loaded by id although the filter
    list allows PDF only, and the list still holds that one type. *)
Lemma file_mode_ignores_filters_witness :
  load_data Scenario.auth Scenario.tree_build Scenario.dir_reader 3
    Scenario.reader_with_user_info (Some "drive-1") None (Some ["B"]) (Some 0)
    (Some "name contains 'a'") Scenario.w_filter
  = load_data Scenario.auth Scenario.tree_build Scenario.dir_reader 3
      Scenario.reader_with_user_info None None (Some ["B"]) None None
      Scenario.w_filter
  ∧ heap (snd (load_data Scenario.auth Scenario.tree_build Scenario.dir_reader 3
                 Scenario.reader_with_user_info (Some "drive-1") None (Some ["B"])
                 (Some 0) (Some "name contains 'a'") Scenario.w_filter))
    = heap Scenario.w_filter.
Proof.
  apply (file_mode_ignores_filters Scenario.auth Scenario.tree_build
           Scenario.dir_reader 3 Scenario.reader_with_user_info (Some "drive-1") None
           (Some ["B"]) (Some 0) (Some "name contains 'a'") Scenario.w_filter).
  reflexivity.
Defined.
